(** * totp-otp-auth: Base32 codec, HOTP/TOTP generation and verification

    A shallow embedding of the TypeScript sources [base32.ts], [totp.ts] and
    [index.ts] together with the properties stated about them.

    Conventions of the embedding:
    - a JavaScript string is the list of its UTF-16 code units ([list Z]);
    - a [Buffer] is the list of its bytes ([list Z]);
    - a JavaScript [number] that the code uses as an integer is a [Z]; the
      32-bit wrap-around of the bitwise operators is written out ([toInt32]);
    - a [bigint] is a [Z] ([&] and [>>] on bigints are two's complement and
      arithmetic, as [Z.land] and [Z.shiftr] are);
    - a function that can throw returns a [result];
    - the two things the sources take from their host (Node's
      [crypto.createHmac] and [String.prototype.toUpperCase]) are the fields
      of the class [Host]; a concrete host, with HMAC as RFC 2104 defines it
      over the FIPS 180-4 hash functions, is given in [Module Node]. *)

From Stdlib Require Import ZArith List String Ascii Bool Lia.
From stdpp Require Import base tactics option list.

Local Open Scope Z_scope.

(** ** JavaScript primitives used by the sources *)

Abbreviation jsstring := (list Z) (only parsing).
Abbreviation Buffer := (list Z) (only parsing).

(** The code units of an ASCII literal. *)
Definition str (s : string) : jsstring :=
  map (fun a => Z.of_nat (nat_of_ascii a)) (list_ascii_of_string s).

Inductive jsError : Type :=
  | InvalidBase32Character (char : Z)
      (* base32.ts: new Error(`Invalid Base32 character: ${char}`) *)
  | HmacArgumentError
      (* thrown by the host's createHmac *)
  | BigIntRangeError
      (* BigInt(x) for a non-finite x *)
  | RequiredError (message : string).
      (* index.ts: new Error('... required') *)

Inductive result (A : Type) : Type :=
  | Ok (a : A)
  | Throw (e : jsError).
Arguments Ok {A} a.
Arguments Throw {A} e.

#[export] Instance result_ret : MRet result := fun A a => Ok a.
#[export] Instance result_bind : MBind result :=
  fun A B f m => match m with Ok a => f a | Throw e => Throw e end.

Definition returns {A} (m : result A) : Prop := exists a, m = Ok a.
Definition throws {A} (m : result A) : Prop := exists e, m = Throw e.

Module JS.

(** ToInt32 and ToUint32 of an integer-valued number. *)
Definition toInt32 (x : Z) : Z := (x + 2 ^ 31) mod 2 ^ 32 - 2 ^ 31.
Definition toUint32 (x : Z) : Z := x mod 2 ^ 32.

(** [x << n], [x >>> n], [x & y], [x | y], [x ^ y] on numbers. *)
Definition shl (x n : Z) : Z := toInt32 (Z.shiftl (toInt32 x) (Z.land n 31)).
Definition ushr (x n : Z) : Z := Z.shiftr (toUint32 x) (Z.land n 31).
Definition band (x y : Z) : Z := Z.land (toInt32 x) (toInt32 y).
Definition bor (x y : Z) : Z := Z.lor (toInt32 x) (toInt32 y).
Definition bxor (x y : Z) : Z := Z.lxor (toInt32 x) (toInt32 y).

(** A number read from a place that may hold [undefined] or [NaN], as an
    operand of a bitwise operator: ToInt32 of both is 0. *)
Definition int32OfMaybe (x : option Z) : Z :=
  match x with Some v => v | None => 0 end.

(** [x[i]] for a Buffer or a string: [undefined] out of range. *)
Definition elementAt (buf : Buffer) (i : Z) : option Z :=
  if i <? 0 then None else buf !! Z.to_nat i.

(** [s.charCodeAt(i)]: [NaN] out of range. *)
Definition charCodeAt (s : jsstring) (i : nat) : option Z := s !! i.

(** [out += s[i]]: indexing a string out of range gives [undefined], which
    [+=] appends as its text. *)
Definition appendCharAt (out s : jsstring) (i : Z) : jsstring :=
  match elementAt s i with
  | Some c => out ++ [c]
  | None => out ++ str "undefined"
  end.

(** [s.indexOf(char)] for a one-code-unit [char]: first position or -1. *)
Fixpoint indexOfFrom (s : jsstring) (char : Z) (pos : Z) : Z :=
  match s with
  | [] => -1
  | c :: rest => if c =? char then pos else indexOfFrom rest char (pos + 1)
  end.
Definition indexOf (s : jsstring) (char : Z) : Z := indexOfFrom s char 0.

(** The class [\s] of a JavaScript regular expression. *)
Definition isWhitespace (c : Z) : bool :=
  ((9 <=? c) && (c <=? 13)) || (c =? 32) || (c =? 160) || (c =? 5760)
  || ((8192 <=? c) && (c <=? 8202)) || (c =? 8232) || (c =? 8233)
  || (c =? 8239) || (c =? 8287) || (c =? 12288) || (c =? 65279).

(** [s.replace(/\s/g, '')] and [s.replace(/[\s-]/g, '')]. *)
Definition removeWhitespace (s : jsstring) : jsstring :=
  List.filter (fun c => negb (isWhitespace c)) s.
Definition removeWhitespaceAndHyphens (s : jsstring) : jsstring :=
  List.filter (fun c => negb (isWhitespace c || (c =? 45))) s.

(** [n.toString()] for an integer 0 <= n < 10^21: its decimal digits,
    most significant first. *)
Fixpoint digitsOf (fuel : nat) (n : Z) (acc : jsstring) : jsstring :=
  match fuel with
  | O => acc
  | S fuel' =>
      let acc' := (48 + n mod 10) :: acc in
      if n / 10 =? 0 then acc' else digitsOf fuel' (n / 10) acc'
  end.
Definition numberToString (n : Z) : jsstring :=
  digitsOf (S (Z.to_nat (Z.log2 n))) n [].

(** [s.padStart(targetLength, c)] for a one-code-unit pad string. *)
Definition padStart (s : jsstring) (targetLength : nat) (c : Z) : jsstring :=
  replicate (targetLength - length s) c ++ s.

(** The value a decimal digit string denotes. *)
Definition decimalValue (s : jsstring) : Z :=
  fold_left (fun acc c => 10 * acc + (c - 48)) s 0.

Definition isDecimalDigit (c : Z) : Prop := 48 <= c <= 57.

(** Upper-casing of one ASCII code unit. *)
Definition asciiUpper (c : Z) : Z :=
  if (97 <=? c) && (c <=? 122) then c - 32 else c.

(** Code units and bytes. *)
Definition isCodeUnit (c : Z) : Prop := 0 <= c < 65536.
Definition isByte (b : Z) : Prop := 0 <= b < 256.

End JS.

(** ** The host: what the sources import and do not define *)

(** [createHmac(algorithm, key)] takes whatever [algoMap[algorithm]] evaluates
    to: a string, or a value that is not one ([None]: [undefined], or a member
    inherited from [Object.prototype], none of which is a string).  It throws
    or returns an object whose [update(data)] followed by [digest()] gives the
    digest of [data]: a function from the message to the digest.
    [toUpperCase] is [String.prototype.toUpperCase]. *)
Class Host : Type := {
  createHmac : option jsstring -> Buffer -> result (Buffer -> Buffer);
  toUpperCase : jsstring -> jsstring;
}.

(** ** base32.ts *)

Module Base32.
Import JS.

Definition BASE32_CHARS : jsstring := str "ABCDEFGHIJKLMNOPQRSTUVWXYZ234567".

(** [while (bits >= 5) { output += BASE32_CHARS[(value >>> (bits - 5)) & 31];
    bits -= 5; }]; the loop runs at most [bits] times. *)
Fixpoint encodeEmit (fuel : nat) (value bits : Z) (output : jsstring)
  : Z * jsstring :=
  match fuel with
  | O => (bits, output)
  | S fuel' =>
      if 5 <=? bits then
        encodeEmit fuel' value (bits - 5)
          (appendCharAt output BASE32_CHARS (band (ushr value (bits - 5)) 31))
      else (bits, output)
  end.

(** The [for] loop over the bytes of the buffer. *)
Fixpoint encodeLoop (buffer : Buffer) (bits value : Z) (output : jsstring)
  : Z * Z * jsstring :=
  match buffer with
  | [] => (bits, value, output)
  | byte :: rest =>
      let value := bor (shl value 8) byte in
      let bits := bits + 8 in
      let '(bits, output) := encodeEmit (Z.to_nat bits) value bits output in
      encodeLoop rest bits value output
  end.

Definition base32Encode (buffer : Buffer) : jsstring :=
  let '(bits, value, output) := encodeLoop buffer 0 0 [] in
  if 0 <? bits then
    appendCharAt output BASE32_CHARS (band (shl value (5 - bits)) 31)
  else output.

(** The [for] loop over the characters of the cleaned text; [output] is
    the pre-allocated buffer, written by index. *)
Fixpoint decodeLoop (base32 : jsstring) (bits value : Z) (index : nat)
    (output : Buffer) : result (nat * Buffer) :=
  match base32 with
  | [] => Ok (index, output)
  | char :: rest =>
      let charIndex := indexOf BASE32_CHARS char in
      if charIndex =? -1 then Throw (InvalidBase32Character char)
      else
        let value := bor (shl value 5) charIndex in
        let bits := bits + 5 in
        if 8 <=? bits then
          decodeLoop rest (bits - 8) value (S index)
            (<[index := band (ushr value (bits - 8)) 255]> output)
        else decodeLoop rest bits value index output
  end.

Definition base32Decode `{Host} (base32 : jsstring) : result Buffer :=
  let base32 := toUpperCase (removeWhitespace base32) in
  let output :=
    replicate (Z.to_nat ((Z.of_nat (length base32) * 5 + 7) / 8)) 0 in
  '(index, output) ← decodeLoop base32 0 0 0%nat output;
  Ok (take index output).

End Base32.

(** ** totp.ts *)

Module TOTP.
Import JS Base32.

(** [algoMap[algorithm]]: the three own properties of the object literal;
    any other key gives a value that is not a string. *)
Definition algoMap (algorithm : jsstring) : option jsstring :=
  if decide (algorithm = str "SHA-1") then Some (str "sha1")
  else if decide (algorithm = str "SHA-256") then Some (str "sha256")
  else if decide (algorithm = str "SHA-512") then Some (str "sha512")
  else None.

(** [for (let i = 7; i >= 0; i--) { counterBuffer[i] = Number(counterValue
    & 0xffn); counterValue = counterValue >> 8n; }]: [S i] iterations
    remain when the index is [i]. *)
Fixpoint counterLoop (remaining : nat) (counterBuffer : Buffer)
    (counterValue : Z) : Buffer :=
  match remaining with
  | O => counterBuffer
  | S i =>
      counterLoop i (<[i := Z.land counterValue 255]> counterBuffer)
        (Z.shiftr counterValue 8)
  end.

Definition counterBufferOf (counter : Z) : Buffer :=
  counterLoop 8 (replicate 8 0) counter.

(** [digest[digest.length - 1] & 0xf] *)
Definition truncationOffset (digest : Buffer) : Z :=
  band (int32OfMaybe (elementAt digest (Z.of_nat (length digest) - 1))) 15.

(** The 31-bit code read at [offset]. *)
Definition truncatedCode (digest : Buffer) : Z :=
  let offset := truncationOffset digest in
  bor (bor (bor
    (shl (band (int32OfMaybe (elementAt digest offset)) 127) 24)
    (shl (band (int32OfMaybe (elementAt digest (offset + 1))) 255) 16))
    (shl (band (int32OfMaybe (elementAt digest (offset + 2))) 255) 8))
    (band (int32OfMaybe (elementAt digest (offset + 3))) 255).

(** [(code % Math.pow(10, digits)).toString().padStart(digits, '0')] for a
    natural number [digits].  [Math.pow(10, digits)] is the exact power up
    to 10^22 and a number above every 31-bit code after that, so that the
    remainder is [code mod 10 ^ digits] for every [digits].  The limit of
    the engine on the length of a string is not modelled. *)
Definition renderCode (code : Z) (digits : nat) : jsstring :=
  let otp := numberToString (code mod 10 ^ Z.of_nat digits) in
  padStart otp digits 48.

(** The parameters of [generateHOTP], [generateTOTP] and [verifyTOTP] are
    all explicit: the default values of the TypeScript signatures are those
    that [index.ts], their only caller, passes itself. *)
Definition generateHOTP `{Host} (secret : Buffer) (counter : Z)
    (digits : nat) (algorithm : jsstring) : result jsstring :=
  let counterBuffer := counterBufferOf counter in
  hmac ← createHmac (algoMap algorithm) secret;
  let digest := hmac counterBuffer in
  let code := truncatedCode digest in
  Ok (renderCode code digits).

(** [BigInt(Math.floor(timestamp / step))] for integers: the quotient is
    not finite when [step] is 0 and [BigInt] throws a RangeError. *)
Definition counterOf (timestamp step : Z) : result Z :=
  if step =? 0 then Throw BigIntRangeError else Ok (timestamp / step).

Definition generateTOTP `{Host} (secret : jsstring) (timestamp step : Z)
    (digits : nat) (algorithm : jsstring) : result jsstring :=
  secretBuffer ← base32Decode secret;
  counter ← counterOf timestamp step;
  generateHOTP secretBuffer counter digits algorithm.

(** The loop of [constantTimeCompare], from index [i] on. *)
Fixpoint compareLoop (a b : jsstring) (i : nat) (remaining : nat)
    (result : Z) : Z :=
  match remaining with
  | O => result
  | S remaining' =>
      compareLoop a b (S i) remaining'
        (bor result (bxor (int32OfMaybe (charCodeAt a i))
                          (int32OfMaybe (charCodeAt b i))))
  end.

Definition constantTimeCompare (a b : jsstring) : bool :=
  if negb (Nat.eqb (length a) (length b)) then false
  else compareLoop a b 0 (length a) 0 =? 0.

(** [for (let i = -window; i <= window; i++)], with the number of
    iterations left as the structural argument. *)
Fixpoint verifyLoop `{Host} (remaining : nat) (i : Z) (secret token : jsstring)
    (timestamp window step : Z) (digits : nat) (algorithm : jsstring)
    : result bool :=
  match remaining with
  | O => Ok false
  | S remaining' =>
      if i <=? window then
        let adjustedTimestamp := timestamp + i * step in
        expectedToken ←
          generateTOTP secret adjustedTimestamp step digits algorithm;
        if constantTimeCompare token expectedToken then Ok true
        else verifyLoop remaining' (i + 1) secret token timestamp window
               step digits algorithm
      else Ok false
  end.

Definition verifyTOTP `{Host} (secret token : jsstring)
    (timestamp window step : Z) (digits : nat) (algorithm : jsstring)
    : result bool :=
  verifyLoop (Z.to_nat (2 * window + 1)) (- window) secret token timestamp
    window step digits algorithm.

End TOTP.

(** ** index.ts: [generateToken] and [verifyToken] *)

Module Index.
Import JS TOTP.

Record TokenOptions : Type := {
  tk_secret : jsstring;
  tk_step : option Z;
  tk_digits : option nat;
  tk_algorithm : option jsstring;
  tk_timestamp : option Z;
}.

Record VerifyOptions : Type := {
  vf_secret : jsstring;
  vf_token : jsstring;
  vf_window : option Z;
  vf_step : option Z;
  vf_digits : option nat;
  vf_algorithm : option jsstring;
  vf_timestamp : option Z;
}.

(** [x || d] for an optional number and an optional string: [undefined],
    [0] and the empty string are falsy. *)
Definition numberOr (x : option Z) (d : Z) : Z :=
  match x with Some v => if v =? 0 then d else v | None => d end.
Definition natOr (x : option nat) (d : nat) : nat :=
  match x with Some (S n) => S n | _ => d end.
Definition stringOr (x : option jsstring) (d : jsstring) : jsstring :=
  match x with Some (c :: s) => c :: s | _ => d end.

(** [!s] for a string. *)
Definition isEmpty (s : jsstring) : bool :=
  match s with [] => true | _ => false end.

Inductive TokenArgument : Type :=
  | TokenWithOptions (options : TokenOptions)
  | TokenWithSecret (secret : jsstring).

(** The [let] block and the two branches of [generateToken]: the values
    of [secret], [step], [digits], [algorithm] and [timestamp] when the
    call to [generateTOTP] is reached.  [now] is
    [Math.floor(Date.now() / 1000)]. *)
Definition tokenParameters (now : Z) (optionsOrSecret : TokenArgument)
  : jsstring * Z * nat * jsstring * Z :=
  match optionsOrSecret with
  | TokenWithSecret secret => (secret, 30, 6%nat, str "SHA-1", now)
  | TokenWithOptions o =>
      (tk_secret o, numberOr (tk_step o) 30, natOr (tk_digits o) 6,
       stringOr (tk_algorithm o) (str "SHA-1"),
       numberOr (tk_timestamp o) now)
  end.

Definition generateToken `{Host} (now : Z) (optionsOrSecret : TokenArgument)
  : result jsstring :=
  let '(secret, step, digits, algorithm, timestamp) :=
    tokenParameters now optionsOrSecret in
  if isEmpty secret then Throw (RequiredError "Secret is required")
  else generateTOTP secret timestamp step digits algorithm.

Inductive VerifyArgument : Type :=
  | VerifyWithOptions (options : VerifyOptions)
  | VerifyWithSecret (secret : jsstring) (token : option jsstring).

(** The [let] block and the two branches of [verifyToken], with the
    check of the string form. *)
Definition verifyParameters (now : Z) (optionsOrSecret : VerifyArgument)
  : result (jsstring * jsstring * Z * Z * nat * jsstring * Z) :=
  match optionsOrSecret with
  | VerifyWithSecret secret token =>
      match token with
      | None | Some [] => Throw (RequiredError "Token is required")
      | Some token => Ok (secret, token, 1, 30, 6%nat, str "SHA-1", now)
      end
  | VerifyWithOptions o =>
      Ok (vf_secret o, vf_token o,
          match vf_window o with Some w => w | None => 1 end,
          numberOr (vf_step o) 30, natOr (vf_digits o) 6,
          stringOr (vf_algorithm o) (str "SHA-1"),
          numberOr (vf_timestamp o) now)
  end.

Definition verifyToken `{Host} (now : Z) (optionsOrSecret : VerifyArgument)
  : result bool :=
  '(secret, tokenToVerify, window, step, digits, algorithm, timestamp) ←
    verifyParameters now optionsOrSecret;
  if isEmpty secret || isEmpty tokenToVerify then
    Throw (RequiredError "Secret and token are required")
  else
    let tokenToVerify := removeWhitespaceAndHyphens tokenToVerify in
    verifyTOTP secret tokenToVerify timestamp window step digits algorithm.

End Index.

(** ** A concrete host

    HMAC as RFC 2104 defines it over SHA-1, SHA-256 and SHA-512 of FIPS 180-4
    (what Node's [crypto.createHmac] computes for the names ['sha1'],
    ['sha256'] and ['sha512']), and upper-casing of the ASCII letters.  Of
    [createHmac] the model keeps what the sources can reach: the three digest
    names of [algoMap], and the TypeError for an argument that is not a
    string; every other name is rejected.  Of [toUpperCase] it keeps the
    ASCII range; code units above 127 are left as they are. *)

Module Node.

Definition beValue (bytes : list Z) : Z :=
  fold_left (fun acc b => acc * 256 + b) bytes 0.

Definition be32 (w : Z) : list Z :=
  [(w / 2 ^ 24) mod 256; (w / 2 ^ 16) mod 256; (w / 2 ^ 8) mod 256; w mod 256].
Definition be64 (w : Z) : list Z :=
  be32 (w / 2 ^ 32) ++ be32 w.

Fixpoint chunks {A} (fuel size : nat) (l : list A) : list (list A) :=
  match fuel, l with
  | O, _ | _, [] => []
  | S fuel', _ => take size l :: chunks fuel' size (drop size l)
  end.

(** Merkle-Damgard padding: 0x80, zeros, and the bit length on
    [lengthBytes] bytes, up to a multiple of [blockBytes]. *)
Definition pad (blockBytes lengthBytes : nat) (message : list Z) : list Z :=
  let used := (length message + 1 + lengthBytes)%nat in
  let zeros := ((blockBytes - used mod blockBytes) mod blockBytes)%nat in
  message ++ [128] ++ replicate zeros 0
    ++ replicate (lengthBytes - 8) 0 ++ be64 (8 * Z.of_nat (length message)).

Definition blocksOf (blockBytes lengthBytes wordBytes : nat)
    (message : list Z) : list (list Z) :=
  let padded := pad blockBytes lengthBytes message in
  map (fun block => map beValue (chunks (length block) wordBytes block))
    (chunks (length padded) blockBytes padded).

Section Words.
Variable w : Z.

Definition wadd (x y : Z) : Z := (x + y) mod 2 ^ w.
Definition rotl (x n : Z) : Z :=
  Z.lor (Z.shiftl x n mod 2 ^ w) (Z.shiftr x (w - n)).
Definition rotr (x n : Z) : Z := rotl x (w - n).
Definition ch (x y z : Z) : Z :=
  Z.lxor (Z.land x y) (Z.land (Z.lnot x) z).
Definition maj (x y z : Z) : Z :=
  Z.lxor (Z.lxor (Z.land x y) (Z.land x z)) (Z.land y z).
Definition xor3 (x y z : Z) : Z := Z.lxor (Z.lxor x y) z.
End Words.

(** *** SHA-1 *)

Definition word (ws : list Z) (back : nat) : Z := nth (back - 1) ws 0.

Fixpoint sha1Extend (n : nat) (ws : list Z) : list Z :=
  match n with
  | O => ws
  | S n' =>
      sha1Extend n'
        (rotl 32 (Z.lxor (xor3 (word ws 3) (word ws 8) (word ws 14))
                         (word ws 16)) 1 :: ws)
  end.

Definition sha1Round (st : Z * Z * Z * Z * Z) (tw : nat * Z)
  : Z * Z * Z * Z * Z :=
  let '(a, b, c, d, e) := st in
  let '(t, wt) := tw in
  let '(f, k) :=
    if (t <? 20)%nat then (ch b c d, 1518500249)
    else if (t <? 40)%nat then (xor3 b c d, 1859775393)
    else if (t <? 60)%nat then (maj b c d, 2400959708)
    else (xor3 b c d, 3395469782) in
  let temp := wadd 32 (wadd 32 (wadd 32 (wadd 32 (rotl 32 a 5) f) e) k) wt in
  (temp, a, rotl 32 b 30, c, d).

Definition sha1Block (h : Z * Z * Z * Z * Z) (block : list Z)
  : Z * Z * Z * Z * Z :=
  let schedule := rev (sha1Extend 64 (rev block)) in
  let '(a, b, c, d, e) :=
    fold_left sha1Round (combine (seq 0 80) schedule) h in
  let '(h0, h1, h2, h3, h4) := h in
  (wadd 32 h0 a, wadd 32 h1 b, wadd 32 h2 c, wadd 32 h3 d, wadd 32 h4 e).

Definition sha1 (message : list Z) : list Z :=
  let '(h0, h1, h2, h3, h4) :=
    fold_left sha1Block (blocksOf 64 8 4 message)
      (1732584193, 4023233417, 2562383102, 271733878, 3285377520) in
  be32 h0 ++ be32 h1 ++ be32 h2 ++ be32 h3 ++ be32 h4.

(** *** SHA-256 and SHA-512 *)

Record sha2Parameters : Type := {
  wordBits : Z;
  bigSigma0 : Z * Z * Z;
  bigSigma1 : Z * Z * Z;
  smallSigma0 : Z * Z * Z;
  smallSigma1 : Z * Z * Z;
  roundConstants : list Z;
}.

Abbreviation state8 := (Z * Z * Z * Z * Z * Z * Z * Z)%type (only parsing).

Section Sha2.
Variable p : sha2Parameters.

Definition bigSigma (r : Z * Z * Z) (x : Z) : Z :=
  let '(r1, r2, r3) := r in
  xor3 (rotr (wordBits p) x r1) (rotr (wordBits p) x r2)
       (rotr (wordBits p) x r3).
Definition smallSigma (r : Z * Z * Z) (x : Z) : Z :=
  let '(r1, r2, s) := r in
  xor3 (rotr (wordBits p) x r1) (rotr (wordBits p) x r2) (Z.shiftr x s).

Fixpoint sha2Extend (n : nat) (ws : list Z) : list Z :=
  match n with
  | O => ws
  | S n' =>
      sha2Extend n'
        (wadd (wordBits p)
           (wadd (wordBits p)
              (wadd (wordBits p) (smallSigma (smallSigma1 p) (word ws 2))
                 (word ws 7))
              (smallSigma (smallSigma0 p) (word ws 15)))
           (word ws 16) :: ws)
  end.

Definition sha2Round (st : state8) (kw : Z * Z) : state8 :=
  let '(a, b, c, d, e, f, g, h) := st in
  let '(k, wt) := kw in
  let add := wadd (wordBits p) in
  let t1 := add (add (add (add h (bigSigma (bigSigma1 p) e)) (ch e f g)) k)
              wt in
  let t2 := add (bigSigma (bigSigma0 p) a) (maj a b c) in
  (add t1 t2, a, b, c, add d t1, e, f, g).

Definition sha2Block (hs : state8) (block : list Z) : state8 :=
  let rounds := length (roundConstants p) in
  let schedule := rev (sha2Extend (rounds - 16) (rev block)) in
  let '(a, b, c, d, e, f, g, h) :=
    fold_left sha2Round (combine (roundConstants p) schedule) hs in
  let '(h0, h1, h2, h3, h4, h5, h6, h7) := hs in
  let add := wadd (wordBits p) in
  (add h0 a, add h1 b, add h2 c, add h3 d,
   add h4 e, add h5 f, add h6 g, add h7 h).
End Sha2.

Definition sha256Parameters : sha2Parameters := {|
  wordBits := 32;
  bigSigma0 := (2, 13, 22);
  bigSigma1 := (6, 11, 25);
  smallSigma0 := (7, 18, 3);
  smallSigma1 := (17, 19, 10);
  roundConstants := [
    1116352408; 1899447441; 3049323471; 3921009573; 961987163; 1508970993;
    2453635748; 2870763221; 3624381080; 310598401; 607225278; 1426881987;
    1925078388; 2162078206; 2614888103; 3248222580; 3835390401; 4022224774;
    264347078; 604807628; 770255983; 1249150122; 1555081692; 1996064986;
    2554220882; 2821834349; 2952996808; 3210313671; 3336571891; 3584528711;
    113926993; 338241895; 666307205; 773529912; 1294757372; 1396182291;
    1695183700; 1986661051; 2177026350; 2456956037; 2730485921; 2820302411;
    3259730800; 3345764771; 3516065817; 3600352804; 4094571909; 275423344;
    430227734; 506948616; 659060556; 883997877; 958139571; 1322822218;
    1537002063; 1747873779; 1955562222; 2024104815; 2227730452; 2361852424;
    2428436474; 2756734187; 3204031479; 3329325298
  ];
|}.

Definition sha512Parameters : sha2Parameters := {|
  wordBits := 64;
  bigSigma0 := (28, 34, 39);
  bigSigma1 := (14, 18, 41);
  smallSigma0 := (1, 8, 7);
  smallSigma1 := (19, 61, 6);
  roundConstants := [
    4794697086780616226; 8158064640168781261; 13096744586834688815;
    16840607885511220156; 4131703408338449720; 6480981068601479193;
    10538285296894168987; 12329834152419229976; 15566598209576043074;
    1334009975649890238; 2608012711638119052; 6128411473006802146;
    8268148722764581231; 9286055187155687089; 11230858885718282805;
    13951009754708518548; 16472876342353939154; 17275323862435702243;
    1135362057144423861; 2597628984639134821; 3308224258029322869;
    5365058923640841347; 6679025012923562964; 8573033837759648693;
    10970295158949994411; 12119686244451234320; 12683024718118986047;
    13788192230050041572; 14330467153632333762; 15395433587784984357;
    489312712824947311; 1452737877330783856; 2861767655752347644;
    3322285676063803686; 5560940570517711597; 5996557281743188959;
    7280758554555802590; 8532644243296465576; 9350256976987008742;
    10552545826968843579; 11727347734174303076; 12113106623233404929;
    14000437183269869457; 14369950271660146224; 15101387698204529176;
    15463397548674623760; 17586052441742319658; 1182934255886127544;
    1847814050463011016; 2177327727835720531; 2830643537854262169;
    3796741975233480872; 4115178125766777443; 5681478168544905931;
    6601373596472566643; 7507060721942968483; 8399075790359081724;
    8693463985226723168; 9568029438360202098; 10144078919501101548;
    10430055236837252648; 11840083180663258601; 13761210420658862357;
    14299343276471374635; 14566680578165727644; 15097957966210449927;
    16922976911328602910; 17689382322260857208; 500013540394364858;
    748580250866718886; 1242879168328830382; 1977374033974150939;
    2944078676154940804; 3659926193048069267; 4368137639120453308;
    4836135668995329356; 5532061633213252278; 6448918945643986474;
    6902733635092675308; 7801388544844847127
  ];
|}.

Definition sha256 (message : list Z) : list Z :=
  let '(h0, h1, h2, h3, h4, h5, h6, h7) :=
    fold_left (sha2Block sha256Parameters) (blocksOf 64 8 4 message)
      (1779033703, 3144134277, 1013904242, 2773480762,
       1359893119, 2600822924, 528734635, 1541459225) in
  be32 h0 ++ be32 h1 ++ be32 h2 ++ be32 h3
    ++ be32 h4 ++ be32 h5 ++ be32 h6 ++ be32 h7.

Definition sha512 (message : list Z) : list Z :=
  let '(h0, h1, h2, h3, h4, h5, h6, h7) :=
    fold_left (sha2Block sha512Parameters) (blocksOf 128 16 8 message)
      (7640891576956012808, 13503953896175478587, 4354685564936845355, 11912009170470909681, 5840696475078001361, 11170449401992604703, 2270897969802886507, 6620516959819538809) in
  be64 h0 ++ be64 h1 ++ be64 h2 ++ be64 h3
    ++ be64 h4 ++ be64 h5 ++ be64 h6 ++ be64 h7.

(** *** HMAC (RFC 2104) *)

Definition hmac (hash : list Z -> list Z) (blockBytes : nat)
    (key message : list Z) : list Z :=
  let key := if (blockBytes <? length key)%nat then hash key else key in
  let key := key ++ replicate (blockBytes - length key) 0 in
  hash (map (Z.lxor 92) key ++ hash (map (Z.lxor 54) key ++ message)).

Definition createHmac (algorithm : option jsstring) (key : Buffer)
  : result (Buffer -> Buffer) :=
  match algorithm with
  | None => Throw HmacArgumentError
  | Some name =>
      if decide (name = str "sha1") then Ok (hmac sha1 64 key)
      else if decide (name = str "sha256") then Ok (hmac sha256 64 key)
      else if decide (name = str "sha512") then Ok (hmac sha512 128 key)
      else Throw HmacArgumentError
  end.

Definition toUpperCase (s : jsstring) : jsstring := map JS.asciiUpper s.

#[export] Instance host : Host := Build_Host createHmac toUpperCase.

End Node.

(** ** index.ts: [generateSecret] and [generateQRCode]

    What they take from their host: [crypto.randomBytes] and the two
    renderers of qrcode.ts, which hand the text to the [qrcode] package
    ([QRCode.toString] for SVG, [QRCode.toDataURL] for a PNG data URL).
    [encodeURIComponent] is the function of ECMA-262 (19.2.6.4 with the
    Encode operation): code units of the unreserved set are kept, every
    other code point is written as the percent-escapes of its UTF-8 bytes,
    and a surrogate without its pair is a URIError.  A rejected promise of
    [generateQRCode] is a [Failed] outcome. *)

Inductive apiError : Type :=
  | IndexError (message : string)
      (* index.ts: new Error(message) *)
  | RandomBytesError
      (* thrown by crypto.randomBytes *)
  | URIError
      (* thrown by encodeURIComponent *)
  | QRCodeError.
      (* rejection of the qrcode package *)

Inductive attempt (A : Type) : Type :=
  | Done (a : A)
  | Failed (e : apiError).
Arguments Done {A} a.
Arguments Failed {A} e.

#[export] Instance attempt_ret : MRet attempt := fun A a => Done a.
#[export] Instance attempt_bind : MBind attempt :=
  fun A B f m => match m with Done a => f a | Failed e => Failed e end.

Class ApiHost : Type := {
  randomBytes : Z -> attempt Buffer;
  generateQRCodeSVG : jsstring -> attempt jsstring;
  generateQRCodeBase64 : jsstring -> attempt jsstring;
}.

Module Uri.

(** The unreserved set: letters, digits and [- _ . ! ~ * ' ( )]. *)
Definition isUnreserved (c : Z) : bool :=
  ((65 <=? c) && (c <=? 90)) || ((97 <=? c) && (c <=? 122))
  || ((48 <=? c) && (c <=? 57))
  || (c =? 45) || (c =? 95) || (c =? 46) || (c =? 33) || (c =? 126)
  || (c =? 42) || (c =? 39) || (c =? 40) || (c =? 41).

Definition isLeadSurrogate (c : Z) : bool := (55296 <=? c) && (c <=? 56319).
Definition isTrailSurrogate (c : Z) : bool := (56320 <=? c) && (c <=? 57343).

Definition codePointOfPair (lead trail : Z) : Z :=
  (lead - 55296) * 1024 + (trail - 56320) + 65536.

Definition utf8 (cp : Z) : list Z :=
  if cp <? 128 then [cp]
  else if cp <? 2048 then [192 + cp / 64; 128 + cp mod 64]
  else if cp <? 65536 then
    [224 + cp / 4096; 128 + (cp / 64) mod 64; 128 + cp mod 64]
  else
    [240 + cp / 262144; 128 + (cp / 4096) mod 64; 128 + (cp / 64) mod 64;
     128 + cp mod 64].

(** An upper-case hexadecimal digit and the escape [%XX] of an octet. *)
Definition hexDigit (d : Z) : Z := if d <? 10 then 48 + d else 55 + d.
Definition escapeOctet (octet : Z) : jsstring :=
  [37; hexDigit (octet / 16); hexDigit (octet mod 16)].
Definition escape (cp : Z) : jsstring := flat_map escapeOctet (utf8 cp).

(** The Encode operation; [None] is the URIError of an unpaired
    surrogate. *)
Fixpoint encode (s : jsstring) : option jsstring :=
  match s with
  | [] => Some []
  | c :: rest =>
      if isUnreserved c then
        match encode rest with Some r => Some (c :: r) | None => None end
      else if isLeadSurrogate c then
        match rest with
        | d :: rest' =>
            if isTrailSurrogate d then
              match encode rest' with
              | Some r => Some (escape (codePointOfPair c d) ++ r)
              | None => None
              end
            else None
        | [] => None
        end
      else if isTrailSurrogate c then None
      else
        match encode rest with
        | Some r => Some (escape c ++ r)
        | None => None
        end
  end.

Definition encodeURIComponent (s : jsstring) : attempt jsstring :=
  match encode s with Some r => Done r | None => Failed URIError end.

End Uri.

Module Secret.
Import JS Base32 Index Uri.

Record SecretOptions : Type := {
  so_issuer : jsstring;
  so_accountName : jsstring;
  so_secretLength : option Z;
}.

Record SecretInfo : Type := {
  si_secret : jsstring;
  si_otpAuthUrl : jsstring;
  si_issuer : jsstring;
  si_accountName : jsstring;
}.

(** The template literal of [otpAuthUrl]. *)
Definition otpAuthUrlOf (encodedIssuer encodedAccount secret : jsstring)
  : jsstring :=
  str "otpauth://totp/" ++ encodedIssuer ++ str ":" ++ encodedAccount
    ++ str "?secret=" ++ secret ++ str "&issuer=" ++ encodedIssuer.

Definition generateSecret `{ApiHost} (options : SecretOptions)
  : attempt SecretInfo :=
  let issuer := so_issuer options in
  let accountName := so_accountName options in
  let secretLength :=
    match so_secretLength options with Some n => n | None => 20 end in
  if isEmpty issuer || isEmpty accountName then
    Failed (IndexError "Issuer and account name are required")
  else
    buffer ← randomBytes secretLength;
    let secret := base32Encode buffer in
    encodedIssuer ← encodeURIComponent issuer;
    encodedAccount ← encodeURIComponent accountName;
    let otpAuthUrl := otpAuthUrlOf encodedIssuer encodedAccount secret in
    Done {| si_secret := secret; si_otpAuthUrl := otpAuthUrl;
            si_issuer := issuer; si_accountName := accountName |}.

(** [s.startsWith(prefix)] *)
Fixpoint startsWith (s prefix : jsstring) : bool :=
  match prefix, s with
  | [], _ => true
  | p :: prefix', c :: s' => (c =? p) && startsWith s' prefix'
  | _ :: _, [] => false
  end.

(** The two call forms of [generateQRCode]: an options object with an
    optional [format], or the URL with an optional [format]. *)
Inductive QRArgument : Type :=
  | QRWithOptions (otpAuthUrl : jsstring) (format : option jsstring)
  | QRWithUrl (otpAuthUrl : jsstring) (format : option jsstring).

(** [otpAuthUrl] and [outputFormat] after the first [if]: the default
    parameter ['base64'] replaces an absent [format] in the string form,
    [format || 'base64'] an absent or empty one in the options form. *)
Definition qrParameters (optionsOrUrl : QRArgument) : jsstring * jsstring :=
  match optionsOrUrl with
  | QRWithUrl url format =>
      (url, match format with Some f => f | None => str "base64" end)
  | QRWithOptions url format => (url, stringOr format (str "base64"))
  end.

Definition generateQRCode `{ApiHost} (optionsOrUrl : QRArgument)
  : attempt jsstring :=
  let '(otpAuthUrl, outputFormat) := qrParameters optionsOrUrl in
  if isEmpty otpAuthUrl then Failed (IndexError "OTP Auth URL is required")
  else if negb (startsWith otpAuthUrl (str "otpauth://")) then
    Failed (IndexError "Invalid OTP Auth URL")
  else if bool_decide (outputFormat = str "svg") then
    generateQRCodeSVG otpAuthUrl
  else generateQRCodeBase64 otpAuthUrl.

End Secret.

(** A host for running [generateSecret] and [generateQRCode]: a fixed byte
    sequence in place of the random source, and renderers that only mark
    which of the two was called. *)
Module TestHost.

Definition randomBytes (size : Z) : attempt Buffer :=
  if (size <? 0) || (2147483647 <? size) then Failed RandomBytesError
  else Done (map (fun i => (Z.of_nat i * 37 + 11) mod 256)
               (seq 0 (Z.to_nat size))).

Definition host : ApiHost :=
  Build_ApiHost randomBytes
    (fun data => Done (str "<svg>" ++ data))
    (fun data => Done (str "data:image/png;base64," ++ data)).

End TestHost.

(** The Base32 text of the RFC 6238 test secret ["12345678901234567890"]. *)
Definition rfcSecret : jsstring := str "GEZDGNBVGY3TQOJQGEZDGNBVGY3TQOJQ".

(** ** Vocabulary of the specification *)

Module Spec.

(** The [n] low base-[2^k] digits of [x], most significant first. *)
Fixpoint digitsBE (k : Z) (n : nat) (x : Z) : list Z :=
  match n with
  | O => []
  | S n' => digitsBE k n' (x / 2 ^ k) ++ [x mod 2 ^ k]
  end.

(** The number a list of base-[2^k] digits denotes, most significant
    first, continuing from [acc]. *)
Definition valueFrom (k : Z) (acc : Z) (l : list Z) : Z :=
  fold_left (fun a d => a * 2 ^ k + d) l acc.
Definition valueBE (k : Z) (l : list Z) : Z := valueFrom k 0 l.

(** The Base32 alphabet [A-Z2-7] as a function of the 5-bit value, and
    back. *)
Definition alphabetChar (d : Z) : Z := if d <? 26 then 65 + d else 24 + d.
Definition alphabetIndex (c : Z) : Z :=
  if (65 <=? c) && (c <=? 90) then c - 65 else c - 24.

(** The text of the [j] low 5-bit groups of [x]. *)
Definition encoded (j : nat) (x : Z) : jsstring :=
  map alphabetChar (digitsBE 5 j x).

Definition isUpperBase32 (c : Z) : Prop :=
  65 <= c <= 90 \/ 50 <= c <= 55.
(** A character of a Base32 text: a letter of the alphabet in either case,
    or a digit of it. *)
Definition isBase32Char (c : Z) : Prop :=
  65 <= c <= 90 \/ 97 <= c <= 122 \/ 50 <= c <= 55.
(** A valid Base32 text: alphabet characters and white space. *)
Definition validBase32Text (t : jsstring) : Prop :=
  Forall (fun c => JS.isWhitespace c = true \/ isBase32Char c) t.

Definition isAscii (c : Z) : Prop := 0 <= c < 128.

(** The OR of the XORs of the corresponding code units of two strings. *)
Definition orXor (a b : jsstring) : Z :=
  fold_left Z.lor (zip_with Z.lxor a b) 0.

(** What the sources rely on from [toUpperCase]: on ASCII text it maps the
    letters a-z to A-Z and leaves the rest. *)
Definition upperCaseOnAscii (H : Host) : Prop :=
  forall s, Forall isAscii s -> toUpperCase s = map JS.asciiUpper s.

(** The digest names [algoMap] can produce, and the digest length of
    each. *)
Definition digestLength (name : jsstring) : option nat :=
  if decide (name = str "sha1") then Some 20%nat
  else if decide (name = str "sha256") then Some 32%nat
  else if decide (name = str "sha512") then Some 64%nat
  else None.

Definition supportedAlgorithm (algorithm : jsstring) : Prop :=
  algorithm = str "SHA-1" \/ algorithm = str "SHA-256"
  \/ algorithm = str "SHA-512".

(** [createHmac] accepts the three digest names, with any key. *)
Definition hmacAcceptsDigestNames (H : Host) : Prop :=
  forall name key, is_Some (digestLength name) ->
    returns (createHmac (Some name) key).

(** A digest has the length of its hash function and holds bytes. *)
Definition hmacDigestShape (H : Host) : Prop :=
  forall name key hmac message n,
    createHmac (Some name) key = Ok hmac -> digestLength name = Some n ->
    length (hmac message) = n /\ Forall JS.isByte (hmac message).

(** [createHmac] throws when its first argument is not a string. *)
Definition hmacRejectsNonString (H : Host) : Prop :=
  forall key, throws (createHmac None key).

(** The candidate token of a call of [verifyToken], and the same call with
    another candidate. *)
Definition candidateToken (arg : Index.VerifyArgument) : option jsstring :=
  match arg with
  | Index.VerifyWithOptions o => Some (Index.vf_token o)
  | Index.VerifyWithSecret _ token => token
  end.

Definition setToken (o : Index.VerifyOptions) (t : jsstring)
  : Index.VerifyOptions :=
  {| Index.vf_secret := Index.vf_secret o;
     Index.vf_token := t;
     Index.vf_window := Index.vf_window o;
     Index.vf_step := Index.vf_step o;
     Index.vf_digits := Index.vf_digits o;
     Index.vf_algorithm := Index.vf_algorithm o;
     Index.vf_timestamp := Index.vf_timestamp o |}.

Definition withCandidate (arg : Index.VerifyArgument) (t : jsstring)
  : Index.VerifyArgument :=
  match arg with
  | Index.VerifyWithOptions o => Index.VerifyWithOptions (setToken o t)
  | Index.VerifyWithSecret secret _ => Index.VerifyWithSecret secret (Some t)
  end.

(** Option objects that differ in one numeric field. *)
Definition tokenOptions (secret : jsstring) (step : option Z)
    (digits : option nat) (algorithm : option jsstring)
    (timestamp : option Z) : Index.TokenArgument :=
  Index.TokenWithOptions
    {| Index.tk_secret := secret; Index.tk_step := step;
       Index.tk_digits := digits; Index.tk_algorithm := algorithm;
       Index.tk_timestamp := timestamp |}.

Definition verifyOptions (secret token : jsstring) (window step : option Z)
    (digits : option nat) (algorithm : option jsstring)
    (timestamp : option Z) : Index.VerifyArgument :=
  Index.VerifyWithOptions
    {| Index.vf_secret := secret; Index.vf_token := token;
       Index.vf_window := window; Index.vf_step := step;
       Index.vf_digits := digits; Index.vf_algorithm := algorithm;
       Index.vf_timestamp := timestamp |}.

End Spec.

(** ** Vocabulary for [generateSecret] and [generateQRCode] *)

Module ApiSpec.

(** [crypto.randomBytes(n)], when it returns, returns [n] bytes. *)
Definition randomBytesGivesBytes (A : ApiHost) : Prop :=
  forall n bytes, randomBytes n = Done bytes ->
    Z.of_nat (length bytes) = n /\ Forall JS.isByte bytes.

(** A character that [encodeURIComponent] can write: an unreserved one or
    the percent sign. *)
Definition isUriSafe (c : Z) : Prop := Uri.isUnreserved c = true \/ c = 37.

(** The characters that structure a URL: [/ : ? & = #]. *)
Definition isUrlDelimiter (c : Z) : Prop :=
  c = 47 \/ c = 58 \/ c = 63 \/ c = 38 \/ c = 61 \/ c = 35.

(** [s] begins with [prefix]. *)
Definition hasPrefix (prefix s : jsstring) : Prop :=
  exists rest, s = prefix ++ rest.

End ApiSpec.

(** * Properties *)

Import JS.

(** ** Arithmetic of the 32-bit operators *)

Section Int32Facts.

Lemma toInt32_range x : - 2 ^ 31 <= toInt32 x < 2 ^ 31.
Proof. unfold toInt32. pose proof (Z.mod_pos_bound (x + 2 ^ 31) (2 ^ 32)). lia. Qed.

Lemma toInt32_small x : - 2 ^ 31 <= x < 2 ^ 31 -> toInt32 x = x.
Proof. intros Hx. unfold toInt32. rewrite Z.mod_small; lia. Qed.

Lemma toInt32_congr x : exists k, toInt32 x = x + 2 ^ 32 * k.
Proof.
  exists (- ((x + 2 ^ 31) / 2 ^ 32)). unfold toInt32.
  pose proof (Z.div_mod (x + 2 ^ 31) (2 ^ 32)). lia.
Qed.

Lemma toInt32_unique r y k :
  - 2 ^ 31 <= r < 2 ^ 31 -> r = y + 2 ^ 32 * k -> toInt32 y = r.
Proof.
  intros Hr ->. unfold toInt32.
  replace (y + 2 ^ 31) with (y + 2 ^ 32 * k + 2 ^ 31 + (- k) * 2 ^ 32) by lia.
  rewrite Z.mod_add by lia. rewrite Z.mod_small; lia.
Qed.

Lemma toInt32_idemp x : toInt32 (toInt32 x) = toInt32 x.
Proof. apply toInt32_small, toInt32_range. Qed.

Lemma toInt32_mod_pow2 x k :
  0 <= k <= 32 -> toInt32 x mod 2 ^ k = x mod 2 ^ k.
Proof.
  intros Hk. destruct (toInt32_congr x) as [j ->].
  replace (2 ^ 32) with (2 ^ (32 - k) * 2 ^ k)
    by (rewrite <- Z.pow_add_r by lia; f_equal; lia).
  replace (x + 2 ^ (32 - k) * 2 ^ k * j) with (x + (2 ^ (32 - k) * j) * 2 ^ k)
    by lia.
  apply Z.mod_add. pose proof (Z.pow_pos_nonneg 2 k). lia.
Qed.

Lemma land_shiftl_low m s b :
  0 <= s -> 0 <= b < 2 ^ s -> Z.land (m * 2 ^ s) b = 0.
Proof.
  intros Hs Hb. apply Z.bits_inj'. intros i Hi.
  rewrite Z.land_spec, Z.bits_0.
  destruct (Z.lt_ge_cases i s) as [Hlt | Hge].
  - rewrite Z.mul_pow2_bits_low by lia. reflexivity.
  - rewrite <- (Z.mod_small b (2 ^ s)) by lia.
    rewrite Z.mod_pow2_bits_high by lia. apply andb_false_r.
Qed.

Lemma lor_shift_add m s b :
  0 <= s -> 0 <= b < 2 ^ s -> Z.lor (m * 2 ^ s) b = m * 2 ^ s + b.
Proof.
  intros Hs Hb. pose proof (land_shiftl_low m s b Hs Hb) as Hland.
  rewrite <- (Z.lxor_lor _ _ Hland). symmetry.
  apply Z.add_nocarry_lxor, Hland.
Qed.

(** [x & (2^k - 1)] keeps the low [k] bits. *)
Lemma band_ones x k :
  0 <= k <= 31 -> band x (Z.ones k) = x mod 2 ^ k.
Proof.
  intros Hk. unfold band.
  assert (0 <= Z.ones k < 2 ^ 31) as Hones.
  { rewrite Z.ones_equiv.
    pose proof (Z.pow_pos_nonneg 2 k).
    pose proof (Z.pow_le_mono_r 2 k 31). lia. }
  rewrite (toInt32_small (Z.ones k)) by lia.
  rewrite Z.land_ones by lia. apply toInt32_mod_pow2. lia.
Qed.

Lemma shl_spec V s : 0 <= s < 32 -> shl (toInt32 V) s = toInt32 (V * 2 ^ s).
Proof.
  intros Hs. unfold shl. rewrite toInt32_idemp.
  change 31 with (Z.ones 5). rewrite Z.land_ones by lia.
  rewrite (Z.mod_small s) by (simpl; lia).
  rewrite Z.shiftl_mul_pow2 by lia.
  destruct (toInt32_congr V) as [j Hj].
  destruct (toInt32_congr (toInt32 V * 2 ^ s)) as [j' Hj'].
  symmetry. apply toInt32_unique with (k := j' + j * 2 ^ s).
  - apply toInt32_range.
  - rewrite Hj', Hj. lia.
Qed.

Lemma shl_small x s :
  0 <= s < 32 -> 0 <= x -> x * 2 ^ s < 2 ^ 31 -> shl x s = x * 2 ^ s.
Proof.
  intros Hs Hx Hlt.
  assert (x < 2 ^ 31).
  { pose proof (Z.pow_pos_nonneg 2 s). nia. }
  rewrite <- (toInt32_small x) at 1 by lia.
  rewrite shl_spec by lia. apply toInt32_small.
  pose proof (Z.pow_pos_nonneg 2 s). nia.
Qed.

(** Appending [s] low bits [b] to a shifted register. *)
Lemma bor_shifted V s b :
  0 <= s < 32 -> 0 <= b < 2 ^ s ->
  bor (toInt32 (V * 2 ^ s)) b = toInt32 (V * 2 ^ s + b).
Proof.
  intros Hs Hb. unfold bor. rewrite toInt32_idemp.
  assert (2 ^ s <= 2 ^ 31) by (apply Z.pow_le_mono_r; lia).
  rewrite (toInt32_small b) by lia.
  destruct (toInt32_congr (V * 2 ^ s)) as [j Hj].
  pose proof (toInt32_range (V * 2 ^ s)) as Hr.
  assert (2 ^ 32 = 2 ^ (32 - s) * 2 ^ s) as Hsplit
    by (rewrite <- Z.pow_add_r by lia; f_equal; lia).
  assert (2 ^ 31 = 2 ^ (31 - s) * 2 ^ s) as Hsplit'
    by (rewrite <- Z.pow_add_r by lia; f_equal; lia).
  set (m := V + 2 ^ (32 - s) * j).
  assert (toInt32 (V * 2 ^ s) = m * 2 ^ s) as Hm
    by (rewrite Hj, Hsplit; subst m; ring).
  rewrite Hm in *. rewrite lor_shift_add by lia.
  symmetry. apply toInt32_unique with (k := j).
  - rewrite Hsplit' in *. pose proof (Z.pow_pos_nonneg 2 s).
    assert (m < 2 ^ (31 - s)) by nia.
    assert (- 2 ^ (31 - s) <= m) by nia. nia.
  - rewrite Hsplit. subst m. ring.
Qed.

Lemma bor_small a b n :
  0 <= n <= 31 -> 0 <= a < 2 ^ n -> 0 <= b < 2 ^ n ->
  bor a b = Z.lor a b /\ 0 <= Z.lor a b < 2 ^ n.
Proof.
  intros Hn Ha Hb.
  assert (2 ^ n <= 2 ^ 31) by (apply Z.pow_le_mono_r; lia).
  unfold bor. rewrite !toInt32_small by lia. split; [reflexivity|].
  split; [apply Z.lor_nonneg; lia|].
  destruct (Z.eq_dec a 0) as [-> | Ha0]; [rewrite Z.lor_0_l; lia|].
  destruct (Z.eq_dec b 0) as [-> | Hb0]; [rewrite Z.lor_0_r; lia|].
  assert (0 <= Z.lor a b) by (apply Z.lor_nonneg; lia).
  assert (Z.lor a b <> 0) by (rewrite Z.lor_eq_0_iff; lia).
  apply Z.log2_lt_pow2; [lia|].
  rewrite Z.log2_lor by lia.
  apply Z.max_lub_lt; apply Z.log2_lt_pow2; lia.
Qed.

Lemma ushr_spec V s :
  0 <= s < 32 -> ushr (toInt32 V) s = (V mod 2 ^ 32) / 2 ^ s.
Proof.
  intros Hs. unfold ushr, toUint32.
  rewrite (toInt32_mod_pow2 V 32) by lia.
  change 31 with (Z.ones 5). rewrite Z.land_ones by lia.
  rewrite (Z.mod_small s) by (simpl; lia).
  apply Z.shiftr_div_pow2. lia.
Qed.

(** The [k] bits above position [s] of a 32-bit register are those of the
    unbounded value it stands for, as long as [s + k <= 32]. *)
Lemma field_of_register V s k :
  0 <= s -> 0 <= k -> s + k <= 32 ->
  ((V mod 2 ^ 32) / 2 ^ s) mod 2 ^ k = (V / 2 ^ s) mod 2 ^ k.
Proof.
  intros Hs Hk Hsk. apply Z.bits_inj'. intros i Hi.
  destruct (Z.lt_ge_cases i k).
  - rewrite !Z.mod_pow2_bits_low by lia.
    rewrite <- !Z.shiftr_div_pow2 by lia. rewrite !Z.shiftr_spec by lia.
    apply Z.mod_pow2_bits_low. lia.
  - rewrite !Z.mod_pow2_bits_high by lia. reflexivity.
Qed.

Lemma field_read V s k :
  0 <= s < 32 -> 0 <= k <= 31 -> s + k <= 32 ->
  band (ushr (toInt32 V) s) (Z.ones k) = (V / 2 ^ s) mod 2 ^ k.
Proof.
  intros Hs Hk Hsk. rewrite band_ones by lia. rewrite ushr_spec by lia.
  apply field_of_register; lia.
Qed.

End Int32Facts.

(** ** Positional notation *)

Section Digits.
Import Spec.
Variable k : Z.
Hypothesis k_pos : 0 < k.

Lemma digitsBE_length n x : length (digitsBE k n x) = n.
Proof.
  revert x. induction n as [|n IH]; intros x; simpl; [reflexivity|].
  rewrite length_app, IH. simpl. lia.
Qed.

Lemma digitsBE_range n x :
  Forall (fun d => 0 <= d < 2 ^ k) (digitsBE k n x).
Proof.
  revert x. induction n as [|n IH]; intros x; simpl; [constructor|].
  apply Forall_app. split; [apply IH|].
  constructor; [|constructor]. apply Z.mod_pos_bound.
  apply Z.pow_pos_nonneg; lia.
Qed.

Lemma valueFrom_snoc acc l d :
  valueFrom k acc (l ++ [d]) = valueFrom k acc l * 2 ^ k + d.
Proof. unfold valueFrom. rewrite fold_left_app. reflexivity. Qed.

Lemma valueFrom_bounds l acc :
  Forall (fun d => 0 <= d < 2 ^ k) l -> 0 <= acc ->
  acc * 2 ^ (k * Z.of_nat (length l)) <= valueFrom k acc l
    < (acc + 1) * 2 ^ (k * Z.of_nat (length l)).
Proof.
  intros Hl. revert acc.
  induction Hl as [|d l Hd Hl IH]; intros acc Hacc.
  - simpl. rewrite Z.mul_0_r. simpl. lia.
  - change (valueFrom k acc (d :: l)) with (valueFrom k (acc * 2 ^ k + d) l).
    assert (0 < 2 ^ k) by (apply Z.pow_pos_nonneg; lia).
    specialize (IH (acc * 2 ^ k + d) ltac:(nia)).
    replace (k * Z.of_nat (length (d :: l)))
      with (k + k * Z.of_nat (length l)) by (simpl length; lia).
    rewrite Z.pow_add_r by lia.
    assert (0 < 2 ^ (k * Z.of_nat (length l)))
      by (apply Z.pow_pos_nonneg; lia).
    nia.
Qed.

Lemma valueBE_bounds l :
  Forall (fun d => 0 <= d < 2 ^ k) l ->
  0 <= valueBE k l < 2 ^ (k * Z.of_nat (length l)).
Proof.
  intros Hl. pose proof (valueFrom_bounds l 0 Hl ltac:(lia)).
  unfold valueBE. lia.
Qed.

(** Reading back the digits of [x] gives [x] up to the number of digits
    kept. *)
Lemma valueBE_digitsBE n x :
  valueBE k (digitsBE k n x) = x mod 2 ^ (k * Z.of_nat n).
Proof.
  unfold valueBE. revert x. induction n as [|n IH]; intros x.
  - simpl. rewrite Z.mul_0_r. simpl. symmetry. apply Z.mod_1_r.
  - simpl digitsBE. rewrite valueFrom_snoc, IH.
    assert (0 < 2 ^ k) by (apply Z.pow_pos_nonneg; lia).
    assert (0 < 2 ^ (k * Z.of_nat n)) by (apply Z.pow_pos_nonneg; lia).
    replace (k * Z.of_nat (S n)) with (k + k * Z.of_nat n) by lia.
    rewrite Z.pow_add_r by lia.
    rewrite Z.rem_mul_r by lia. lia.
Qed.

(** Writing out the digits of the number a digit list denotes gives the
    list back. *)
Lemma digitsBE_valueBE l :
  Forall (fun d => 0 <= d < 2 ^ k) l ->
  digitsBE k (length l) (valueBE k l) = l.
Proof.
  unfold valueBE. induction l as [|d l IH] using rev_ind; intros Hl.
  - reflexivity.
  - apply Forall_app in Hl as [Hl Hd]. inversion Hd as [|? ? Hd' _]; subst.
    rewrite length_app. simpl length.
    replace (length l + 1)%nat with (S (length l)) by lia.
    simpl digitsBE. rewrite valueFrom_snoc.
    rewrite Z.div_add_l by lia. rewrite (Z.div_small d) by lia.
    rewrite Z.add_0_r, IH by assumption.
    rewrite Z.add_comm, Z.mod_add by lia.
    rewrite Z.mod_small by lia. reflexivity.
Qed.

End Digits.

(** ** The Base32 codec *)

Section Base32Facts.
Import Spec Base32.

Lemma alphabet_lookup d :
  0 <= d < 32 -> elementAt BASE32_CHARS d = Some (alphabetChar d).
Proof.
  intros Hd.
  assert (forall n, (n < 32)%nat -> elementAt BASE32_CHARS (Z.of_nat n) = Some (alphabetChar (Z.of_nat n))) as Hnat.
  { intros n Hn. do 32 (destruct n as [|n]; [reflexivity|]). lia. }
  rewrite <- (Z2Nat.id d) by lia. apply Hnat. lia.
Qed.

Lemma alphabet_indexOf d :
  0 <= d < 32 -> indexOf BASE32_CHARS (alphabetChar d) = d.
Proof.
  intros Hd.
  assert (forall n, (n < 32)%nat -> indexOf BASE32_CHARS (alphabetChar (Z.of_nat n)) = Z.of_nat n) as Hnat.
  { intros n Hn. do 32 (destruct n as [|n]; [reflexivity|]). lia. }
  rewrite <- (Z2Nat.id d) by lia. apply Hnat. lia.
Qed.

Lemma alphabetChar_upper d : 0 <= d < 32 -> isUpperBase32 (alphabetChar d).
Proof.
  intros Hd. unfold isUpperBase32, alphabetChar.
  destruct (Z.ltb_spec d 26); lia.
Qed.

Lemma alphabetIndex_char c :
  isUpperBase32 c ->
  0 <= alphabetIndex c < 32 /\ alphabetChar (alphabetIndex c) = c.
Proof.
  unfold isUpperBase32, alphabetIndex, alphabetChar. intros Hc.
  destruct (Z.leb_spec 65 c), (Z.leb_spec c 90); simpl;
    match goal with |- context [?a <? 26] => destruct (Z.ltb_spec a 26) end;
    lia.
Qed.

Lemma appendChar_alphabet out d :
  0 <= d < 32 -> appendCharAt out BASE32_CHARS d = out ++ [alphabetChar d].
Proof. intros Hd. unfold appendCharAt. rewrite alphabet_lookup; done. Qed.

Lemma encoded_S j x :
  encoded (S j) x = encoded j (x / 32) ++ [alphabetChar (x mod 32)].
Proof. unfold encoded. simpl digitsBE. rewrite map_app. reflexivity. Qed.

(** The inner loop: with the register standing for [V] and [bits] pending
    bits, the [j] characters written so far being the groups of
    [V / 2^bits], it leaves fewer than 5 pending bits. *)
Lemma encodeEmit_spec V fuel : forall bits j,
  0 <= bits <= 32 -> bits < 5 * Z.of_nat fuel + 5 ->
  exists j' bits',
    encodeEmit fuel (toInt32 V) bits (encoded j (V / 2 ^ bits))
      = (bits', encoded j' (V / 2 ^ bits'))
    /\ 0 <= bits' < 5
    /\ 5 * Z.of_nat j' + bits' = 5 * Z.of_nat j + bits.
Proof.
  induction fuel as [|fuel IH]; intros bits j Hbits Hfuel.
  - exists j, bits. simpl. repeat split; lia.
  - simpl. destruct (Z.leb_spec 5 bits) as [Hge | Hlt].
    + change 31 with (Z.ones 5). rewrite field_read by lia.
      rewrite appendChar_alphabet
        by (apply Z.mod_pos_bound; reflexivity).
      assert (V / 2 ^ bits = V / 2 ^ (bits - 5) / 32) as ->.
      { rewrite Z.div_div by (try apply Z.pow_pos_nonneg; lia).
        change 32 with (2 ^ 5). rewrite <- Z.pow_add_r by lia.
        do 2 f_equal. lia. }
      change (2 ^ 5) with 32. rewrite <- encoded_S.
      destruct (IH (bits - 5) (S j)) as (j' & bits' & Heq & Hb & Hsum);
        [lia | lia |].
      exists j', bits'. rewrite Heq. repeat split; lia.
    + exists j, bits. repeat split; lia.
Qed.

Lemma encodeLoop_spec buffer : forall V bits j,
  Forall isByte buffer -> 0 <= bits < 5 ->
  exists j' bits',
    encodeLoop buffer bits (toInt32 V) (encoded j (V / 2 ^ bits))
      = (bits', toInt32 (valueFrom 8 V buffer),
         encoded j' (valueFrom 8 V buffer / 2 ^ bits'))
    /\ 0 <= bits' < 5
    /\ 5 * Z.of_nat j' + bits'
       = 5 * Z.of_nat j + bits + 8 * Z.of_nat (length buffer).
Proof.
  induction buffer as [|byte rest IH]; intros V bits j Hbytes Hbits.
  - exists j, bits. simpl. repeat split; lia.
  - inversion Hbytes as [|? ? Hbyte Hrest]; subst. unfold isByte in Hbyte.
    simpl encodeLoop. rewrite shl_spec by lia.
    rewrite bor_shifted by (simpl; lia).
    change (valueFrom 8 V (byte :: rest))
      with (valueFrom 8 (V * 2 ^ 8 + byte) rest).
    set (V' := V * 2 ^ 8 + byte).
    assert (V / 2 ^ bits = V' / 2 ^ (bits + 8)) as ->.
    { subst V'. rewrite Z.pow_add_r by lia.
      rewrite (Z.mul_comm (2 ^ bits)).
      rewrite <- Z.div_div by (try apply Z.pow_pos_nonneg; lia).
      rewrite Z.div_add_l by lia. rewrite (Z.div_small byte) by (simpl; lia).
      f_equal. lia. }
    destruct (encodeEmit_spec V' (Z.to_nat (bits + 8)) (bits + 8) j)
      as (j1 & bits1 & Heq & Hb1 & Hsum1); [lia | lia |].
    rewrite Heq.
    destruct (IH V' bits1 j1 Hrest Hb1) as (j2 & bits2 & Heq2 & Hb2 & Hsum2).
    exists j2, bits2. rewrite Heq2. simpl length. repeat split; lia.
Qed.

(** [base32Encode] writes the groups of the buffer's bits, padded with
    [p] zero bits to a multiple of 5. *)
Lemma base32Encode_spec buffer :
  Forall isByte buffer ->
  exists (m : nat) (p : Z),
    base32Encode buffer = encoded m (valueBE 8 buffer * 2 ^ p)
    /\ 0 <= p < 5
    /\ 5 * Z.of_nat m = 8 * Z.of_nat (length buffer) + p.
Proof.
  intros Hbytes. unfold base32Encode.
  destruct (encodeLoop_spec buffer 0 0 0%nat Hbytes ltac:(lia))
    as (j & bits & Heq & Hb & Hsum).
  change (toInt32 0) with 0 in Heq. change (encoded 0 (0 / 2 ^ 0)) with (@nil Z) in Heq.
  rewrite Heq. fold (valueBE 8 buffer). set (V := valueBE 8 buffer).
  destruct (Z.ltb_spec 0 bits) as [Hpos | Hzero].
  - exists (S j), (5 - bits).
    rewrite shl_spec by lia. change 31 with (Z.ones 5).
    rewrite band_ones by lia. rewrite toInt32_mod_pow2 by lia.
    change (2 ^ 5) with 32.
    rewrite appendChar_alphabet by (apply Z.mod_pos_bound; reflexivity).
    rewrite encoded_S.
    assert (V * 2 ^ (5 - bits) / 32 = V / 2 ^ bits) as ->.
    { change 32 with (2 ^ 5).
      replace 5 with (bits + (5 - bits)) at 2 by lia.
      rewrite Z.pow_add_r by lia.
      apply Z.div_mul_cancel_r; apply Z.pow_nonzero; lia. }
    repeat split; lia.
  - exists j, 0. assert (bits = 0) as -> by lia.
    rewrite Z.div_1_r, Z.mul_1_r. repeat split; lia.
Qed.

Lemma base32Encode_length buffer :
  Forall isByte buffer ->
  Z.of_nat (length (base32Encode buffer))
    = (8 * Z.of_nat (length buffer) + 4) / 5.
Proof.
  intros Hbytes.
  destruct (base32Encode_spec buffer Hbytes) as (m & p & -> & Hp & Hsum).
  unfold encoded. rewrite length_map, digitsBE_length.
  apply Z.div_unique with (r := 4 - p); lia.
Qed.

(** The decoding loop on the text of the 5-bit groups [ds]: with the
    register standing for [W], [bits] pending bits and the [index] bytes
    written so far being the groups of [W / 2^bits], it writes the bytes of
    the whole bit string and leaves fewer than 8 pending bits. *)
Lemma decodeLoop_spec ds : forall W bits index output,
  Forall (fun d => 0 <= d < 32) ds -> 0 <= bits < 8 ->
  8 * Z.of_nat index + bits + 5 * Z.of_nat (length ds)
    <= 8 * Z.of_nat (length output) ->
  take index output = digitsBE 8 index (W / 2 ^ bits) ->
  exists index' bits' output',
    decodeLoop (map alphabetChar ds) bits (toInt32 W) index output
      = Ok (index', output')
    /\ take index' output'
       = digitsBE 8 index' (valueFrom 5 W ds / 2 ^ bits')
    /\ 0 <= bits' < 8
    /\ 8 * Z.of_nat index' + bits'
       = 8 * Z.of_nat index + bits + 5 * Z.of_nat (length ds)
    /\ length output' = length output.
Proof.
  induction ds as [|d rest IH]; intros W bits index output Hds Hbits Hroom Hsofar.
  - exists index, bits, output. simpl in *. repeat split; try lia; done.
  - inversion Hds as [|? ? Hd Hrest]; subst.
    simpl map. simpl decodeLoop. rewrite alphabet_indexOf by lia.
    destruct (Z.eqb_spec d (-1)) as [|_]; [lia|].
    rewrite shl_spec by lia. rewrite bor_shifted by (simpl; lia).
    change (valueFrom 5 W (d :: rest))
      with (valueFrom 5 (W * 2 ^ 5 + d) rest).
    set (W' := W * 2 ^ 5 + d).
    assert (W / 2 ^ bits = W' / 2 ^ (bits + 5)) as Hshift.
    { subst W'. rewrite Z.pow_add_r by lia.
      rewrite (Z.mul_comm (2 ^ bits)).
      rewrite <- Z.div_div by (try apply Z.pow_pos_nonneg; lia).
      rewrite Z.div_add_l by lia. rewrite (Z.div_small d) by (simpl; lia).
      f_equal. lia. }
    simpl length in Hroom.
    destruct (Z.leb_spec 8 (bits + 5)) as [Hge | Hlt].
    + change 255 with (Z.ones 8). rewrite field_read by lia.
      assert (index < length output)%nat as Hin by lia.
      destruct (IH W' (bits + 5 - 8) (S index)
                  (<[index := (W' / 2 ^ (bits + 5 - 8)) mod 2 ^ 8]> output))
        as (i' & b' & o' & Heq & Htake & Hb & Hsum & Hlen);
        [assumption | lia | rewrite length_insert; lia | |].
      { erewrite take_S_r by (apply list_lookup_insert_eq; exact Hin).
        rewrite take_insert_ge by lia. rewrite Hsofar, Hshift.
        simpl digitsBE. do 2 f_equal.
        rewrite Z.div_div by (try apply Z.pow_pos_nonneg; lia).
        rewrite <- Z.pow_add_r by lia. do 2 f_equal. lia. }
      exists i', b', o'. rewrite Heq. rewrite length_insert in Hlen.
      simpl length. repeat split; try lia; assumption.
    + destruct (IH W' (bits + 5) index output)
        as (i' & b' & o' & Heq & Htake & Hb & Hsum & Hlen);
        [assumption | lia | lia | rewrite Hsofar, Hshift; reflexivity |].
      exists i', b', o'. rewrite Heq.
      simpl length. repeat split; try lia; assumption.
Qed.

Lemma isWhitespace_spec c :
  isWhitespace c = true <->
  9 <= c <= 13 \/ c = 32 \/ c = 160 \/ c = 5760 \/ 8192 <= c <= 8202
  \/ c = 8232 \/ c = 8233 \/ c = 8239 \/ c = 8287 \/ c = 12288 \/ c = 65279.
Proof.
  unfold isWhitespace.
  rewrite !orb_true_iff, !andb_true_iff, !Z.leb_le, !Z.eqb_eq. tauto.
Qed.

Lemma upper_not_whitespace c : isUpperBase32 c -> isWhitespace c = false.
Proof.
  intros Hc. destruct (isWhitespace c) eqn:Hw; [|reflexivity].
  apply isWhitespace_spec in Hw. unfold isUpperBase32 in Hc. lia.
Qed.

Lemma asciiUpper_upper c : isUpperBase32 c -> asciiUpper c = c.
Proof.
  unfold isUpperBase32, asciiUpper. intros Hc.
  destruct (Z.leb_spec 97 c), (Z.leb_spec c 122); simpl; lia.
Qed.

Lemma asciiUpper_base32 c : isBase32Char c -> isUpperBase32 (asciiUpper c).
Proof.
  unfold isBase32Char, isUpperBase32, asciiUpper. intros Hc.
  destruct (Z.leb_spec 97 c), (Z.leb_spec c 122); simpl; lia.
Qed.

Lemma removeWhitespace_upper s :
  Forall isUpperBase32 s -> removeWhitespace s = s.
Proof.
  induction 1 as [|c s Hc Hs IH]; [reflexivity|].
  unfold removeWhitespace in *. simpl.
  rewrite (upper_not_whitespace c Hc). simpl. f_equal. exact IH.
Qed.

Lemma map_asciiUpper_upper s :
  Forall isUpperBase32 s -> map asciiUpper s = s.
Proof.
  induction 1 as [|c s Hc Hs IH]; [reflexivity|].
  simpl. rewrite asciiUpper_upper, IH; done.
Qed.

Lemma encoded_upper ds :
  Forall (fun d => 0 <= d < 32) ds -> Forall isUpperBase32 (map alphabetChar ds).
Proof.
  intros Hds. apply Forall_map. eapply Forall_impl; [exact Hds|].
  intros d Hd. apply alphabetChar_upper, Hd.
Qed.

Lemma upper_as_encoded s :
  Forall isUpperBase32 s ->
  s = map alphabetChar (map alphabetIndex s)
  /\ Forall (fun d => 0 <= d < 32) (map alphabetIndex s).
Proof.
  induction 1 as [|c s Hc Hs [IH1 IH2]]; [split; [reflexivity|constructor]|].
  destruct (alphabetIndex_char c Hc) as [Hrange Hback].
  simpl. rewrite Hback, <- IH1. split; [reflexivity|]. constructor; assumption.
Qed.

Lemma upper_ascii s : Forall isUpperBase32 s -> Forall isAscii s.
Proof.
  intros Hs. eapply Forall_impl; [exact Hs|].
  unfold isUpperBase32, isAscii. intros c Hc. lia.
Qed.

Context (H : Host) (Hupper : upperCaseOnAscii H).

(** Decoding the text of the 5-bit groups [ds]: the bytes of the bit
    string, without the [bits] < 8 bits left at the end. *)
Lemma base32Decode_groups ds :
  Forall (fun d => 0 <= d < 32) ds ->
  exists (n : nat) (bits : Z),
    base32Decode (map alphabetChar ds)
      = Ok (digitsBE 8 n (valueBE 5 ds / 2 ^ bits))
    /\ 0 <= bits < 8
    /\ 8 * Z.of_nat n + bits = 5 * Z.of_nat (length ds).
Proof.
  intros Hds. pose proof (encoded_upper ds Hds) as Hup.
  unfold base32Decode.
  rewrite (removeWhitespace_upper _ Hup).
  rewrite (Hupper _ (upper_ascii _ Hup)), (map_asciiUpper_upper _ Hup).
  rewrite length_map.
  set (L := Z.to_nat ((Z.of_nat (length ds) * 5 + 7) / 8)).
  destruct (decodeLoop_spec ds 0 0 0%nat (replicate L 0) Hds)
    as (n & bits & out & Heq & Htake & Hb & Hsum & Hlen);
    [lia | | reflexivity |].
  { rewrite length_replicate. subst L.
    rewrite Z2Nat.id by (apply Z.div_pos; lia).
    Z.div_mod_to_equations. lia. }
  change (toInt32 0) with 0 in Heq. rewrite Heq. simpl.
  exists n, bits. rewrite Htake. repeat split; lia.
Qed.

Lemma base32Decode_encode buffer :
  Forall isByte buffer -> base32Decode (base32Encode buffer) = Ok buffer.
Proof.
  intros Hbytes.
  destruct (base32Encode_spec buffer Hbytes) as (m & p & -> & Hp & Hm).
  unfold encoded.
  destruct (base32Decode_groups (digitsBE 5 m (valueBE 8 buffer * 2 ^ p)))
    as (n & bits & -> & Hbits & Hn);
    [exact (digitsBE_range 5 ltac:(lia) m _)|].
  rewrite digitsBE_length in Hn.
  assert (n = length buffer) as -> by lia. assert (bits = p) as -> by lia.
  rewrite valueBE_digitsBE by lia.
  pose proof (valueBE_bounds 8 ltac:(lia) buffer Hbytes) as Hrange.
  rewrite Z.mod_small.
  - rewrite Z.div_mul by (apply Z.pow_nonzero; lia).
    rewrite digitsBE_valueBE; [reflexivity | lia | exact Hbytes].
  - replace (5 * Z.of_nat m) with (8 * Z.of_nat (length buffer) + p) by lia.
    rewrite Z.pow_add_r by lia.
    assert (0 < 2 ^ p) by (apply Z.pow_pos_nonneg; lia). nia.
Qed.

Lemma base32Decode_valid t :
  validBase32Text t ->
  exists out,
    base32Decode t = Ok out
    /\ Z.of_nat (length out)
       = 5 * Z.of_nat (length (removeWhitespace t)) / 8.
Proof.
  intros Hvalid.
  assert (Forall isBase32Char (removeWhitespace t)) as Hclean.
  { unfold removeWhitespace. induction Hvalid as [|c t Hc Ht IH]; simpl.
    - constructor.
    - destruct (isWhitespace c) eqn:Hw; simpl; [exact IH|].
      constructor; [|exact IH]. destruct Hc as [Hc|Hc]; [discriminate|exact Hc]. }
  assert (Forall isAscii (removeWhitespace t)) as Hascii.
  { eapply Forall_impl; [exact Hclean|].
    unfold isBase32Char, isAscii. intros c Hc. lia. }
  assert (Forall isUpperBase32 (map asciiUpper (removeWhitespace t))) as Hup.
  { apply Forall_map. eapply Forall_impl; [exact Hclean|].
    intros c Hc. apply asciiUpper_base32, Hc. }
  destruct (upper_as_encoded _ Hup) as [Htext Hds].
  assert (base32Decode t
          = base32Decode (map asciiUpper (removeWhitespace t))) as ->.
  { unfold base32Decode.
    rewrite (removeWhitespace_upper _ Hup).
    rewrite (Hupper _ (upper_ascii _ Hup)), (map_asciiUpper_upper _ Hup).
    rewrite (Hupper _ Hascii). reflexivity. }
  rewrite Htext.
  destruct (base32Decode_groups _ Hds) as (n & bits & -> & Hbits & Hn).
  eexists. split; [reflexivity|].
  rewrite digitsBE_length by lia. rewrite !length_map in Hn.
  apply Z.div_unique with (r := bits); lia.
Qed.

End Base32Facts.

(** ** Number rendering *)

Section RenderFacts.

Lemma digitsOf_length fuel : forall n acc (d : nat),
  (1 <= d)%nat -> 0 <= n < 10 ^ Z.of_nat d ->
  (length (digitsOf fuel n acc) <= d + length acc)%nat.
Proof.
  induction fuel as [|fuel IH]; intros n acc d Hd Hn; simpl; [lia|].
  destruct (Z.eqb_spec (n / 10) 0) as [Hz | Hnz]; [simpl; lia|].
  destruct d as [|[|d]];
    [lia | change (10 ^ Z.of_nat 1) with 10 in Hn;
           rewrite Z.div_small in Hnz; lia |].
  assert (0 <= n / 10 < 10 ^ Z.of_nat (S d)) as Hq.
  { replace (Z.of_nat (S (S d))) with (1 + Z.of_nat (S d)) in Hn by lia.
    rewrite Z.pow_add_r in Hn by lia. change (10 ^ 1) with 10 in Hn.
    split; [apply Z.div_pos; lia|]. apply Z.div_lt_upper_bound; lia. }
  specialize (IH (n / 10) ((48 + n mod 10) :: acc) (S d) ltac:(lia) Hq).
  simpl length in IH. lia.
Qed.

(** With enough fuel the digits written in front of [acc] are decimal
    digits and denote [n]. *)
Lemma digitsOf_value fuel : forall n acc,
  (1 <= fuel)%nat -> 0 <= n < 2 ^ Z.of_nat fuel ->
  exists p,
    digitsOf fuel n acc = p ++ acc
    /\ Forall isDecimalDigit p /\ decimalValue p = n.
Proof.
  induction fuel as [|fuel IH]; intros n acc Hfuel Hn; [lia|].
  simpl. pose proof (Z.mod_pos_bound n 10 ltac:(lia)) as Hmod.
  destruct (Z.eqb_spec (n / 10) 0) as [Hz | Hnz].
  - exists [48 + n mod 10]. repeat split.
    + constructor; [unfold isDecimalDigit; lia | constructor].
    + unfold decimalValue. simpl. pose proof (Z.div_mod n 10). lia.
  - assert (1 <= n / 10) by (pose proof (Z.div_pos n 10); lia).
    assert (n / 10 < 2 ^ Z.of_nat fuel) as Hq.
    { replace (Z.of_nat (S fuel)) with (1 + Z.of_nat fuel) in Hn by lia.
      rewrite Z.pow_add_r in Hn by lia. change (2 ^ 1) with 2 in Hn.
      apply Z.div_lt_upper_bound; lia. }
    assert (1 <= fuel)%nat as Hfuel'.
    { destruct fuel; [simpl in Hq; lia | lia]. }
    destruct (IH (n / 10) ((48 + n mod 10) :: acc) Hfuel' ltac:(lia))
      as (p & Heq & Hdigits & Hvalue).
    exists (p ++ [48 + n mod 10]). rewrite Heq, <- app_assoc. repeat split.
    + apply Forall_app. split; [exact Hdigits|].
      constructor; [unfold isDecimalDigit; lia | constructor].
    + unfold decimalValue in *. rewrite fold_left_app, Hvalue. simpl.
      pose proof (Z.div_mod n 10). lia.
Qed.

Lemma numberToString_spec n :
  0 <= n ->
  Forall isDecimalDigit (numberToString n)
  /\ decimalValue (numberToString n) = n.
Proof.
  intros Hn. unfold numberToString.
  destruct (digitsOf_value (S (Z.to_nat (Z.log2 n))) n []) as (p & -> & Hd & Hv).
  - lia.
  - split; [lia|]. rewrite Nat2Z.inj_succ, Z2Nat.id by apply Z.log2_nonneg.
    destruct (Z.eq_dec n 0) as [-> | Hnz]; [reflexivity|].
    apply Z.log2_spec. lia.
  - rewrite app_nil_r. split; assumption.
Qed.

Lemma decimalValue_zeros k s :
  decimalValue (replicate k 48 ++ s) = decimalValue s.
Proof.
  unfold decimalValue. rewrite fold_left_app. f_equal.
  induction k as [|k IH]; [reflexivity|]. simpl. exact IH.
Qed.

(** The text of a code: exactly [digits] decimal digits denoting
    [code mod 10^digits]. *)
Lemma renderCode_spec code digits :
  0 <= code -> (1 <= digits)%nat ->
  length (TOTP.renderCode code digits) = digits
  /\ Forall isDecimalDigit (TOTP.renderCode code digits)
  /\ decimalValue (TOTP.renderCode code digits)
     = code mod 10 ^ Z.of_nat digits.
Proof.
  intros Hcode Hdigits. unfold TOTP.renderCode, padStart.
  assert (0 < 10 ^ Z.of_nat digits) as Hpow by (apply Z.pow_pos_nonneg; lia).
  pose proof (Z.mod_pos_bound code _ Hpow) as Hmod.
  set (m := code mod 10 ^ Z.of_nat digits) in *.
  destruct (numberToString_spec m ltac:(lia)) as [Hd Hv].
  pose proof (digitsOf_length (S (Z.to_nat (Z.log2 m))) m [] digits
                Hdigits Hmod) as Hlen.
  fold (numberToString m) in Hlen. simpl length in Hlen.
  repeat split.
  - rewrite length_app, length_replicate. lia.
  - apply Forall_app. split; [|exact Hd].
    apply Forall_replicate. unfold isDecimalDigit. lia.
  - rewrite decimalValue_zeros. exact Hv.
Qed.

End RenderFacts.

(** ** The HOTP computation *)

Section HotpFacts.
Import Spec TOTP.

Lemma counterLoop_spec n : forall buf c,
  (n <= length buf)%nat ->
  counterLoop n buf c = digitsBE 8 n c ++ drop n buf.
Proof.
  induction n as [|i IH]; intros buf c Hlen; simpl.
  - rewrite drop_0. reflexivity.
  - rewrite IH by (rewrite length_insert; lia).
    rewrite insert_take_drop by lia.
    rewrite drop_app_length' by (rewrite length_take; lia).
    rewrite Z.shiftr_div_pow2 by lia.
    change 255 with (Z.ones 8). rewrite Z.land_ones by lia.
    rewrite <- app_assoc. reflexivity.
Qed.

Lemma counterBufferOf_digits counter :
  counterBufferOf counter = digitsBE 8 8 counter.
Proof.
  unfold counterBufferOf. rewrite counterLoop_spec by (simpl; lia).
  simpl drop. apply app_nil_r.
Qed.

Lemma digitsBE_mod k n x :
  0 < k -> digitsBE k n (x mod 2 ^ (k * Z.of_nat n)) = digitsBE k n x.
Proof.
  intros Hk. set (M := 2 ^ (k * Z.of_nat n)).
  pose proof (digitsBE_valueBE k Hk _ (digitsBE_range k Hk n x)) as HB.
  pose proof (digitsBE_valueBE k Hk _ (digitsBE_range k Hk n (x mod M)))
    as HA.
  rewrite digitsBE_length, valueBE_digitsBE in HA, HB by exact Hk.
  fold M in HA, HB.
  rewrite Z.mod_mod in HA by (apply Z.pow_nonzero; lia).
  congruence.
Qed.

Lemma byte_read x : 0 <= band (int32OfMaybe x) 255 < 256.
Proof.
  change 255 with (Z.ones 8). rewrite band_ones by lia.
  apply Z.mod_pos_bound. reflexivity.
Qed.

Lemma truncationOffset_range digest : 0 <= truncationOffset digest < 16.
Proof.
  unfold truncationOffset. change 15 with (Z.ones 4).
  rewrite band_ones by lia. apply Z.mod_pos_bound. reflexivity.
Qed.

(** The code fits in 31 bits, whatever the digest. *)
Lemma truncatedCode_range digest : 0 <= truncatedCode digest < 2 ^ 31.
Proof.
  unfold truncatedCode.
  set (offset := truncationOffset digest).
  pose proof (byte_read (elementAt digest (offset + 1))) as H1.
  pose proof (byte_read (elementAt digest (offset + 2))) as H2.
  pose proof (byte_read (elementAt digest (offset + 3))) as H3.
  assert (0 <= band (int32OfMaybe (elementAt digest offset)) 127 < 128)
    as H0.
  { change 127 with (Z.ones 7). rewrite band_ones by lia.
    apply Z.mod_pos_bound. reflexivity. }
  set (b0 := band (int32OfMaybe (elementAt digest offset)) 127) in *.
  set (b1 := band (int32OfMaybe (elementAt digest (offset + 1))) 255) in *.
  set (b2 := band (int32OfMaybe (elementAt digest (offset + 2))) 255) in *.
  set (b3 := band (int32OfMaybe (elementAt digest (offset + 3))) 255) in *.
  rewrite !shl_small by (simpl; lia).
  change (2 ^ 24) with 16777216. change (2 ^ 16) with 65536.
  change (2 ^ 8) with 256.
  destruct (bor_small (b0 * 16777216) (b1 * 65536) 31) as [-> R1];
    [lia | simpl; lia | simpl; lia |].
  destruct (bor_small (Z.lor (b0 * 16777216) (b1 * 65536)) (b2 * 256) 31)
    as [-> R2]; [lia | exact R1 | simpl; lia |].
  destruct (bor_small
              (Z.lor (Z.lor (b0 * 16777216) (b1 * 65536)) (b2 * 256)) b3 31)
    as [-> R3]; [lia | exact R2 | simpl; lia |].
  simpl in R3. exact R3.
Qed.

Lemma lor_four_bytes b0 b1 b2 b3 :
  0 <= b1 < 256 -> 0 <= b2 < 256 -> 0 <= b3 < 256 ->
  Z.lor (Z.lor (Z.lor (b0 * 16777216) (b1 * 65536)) (b2 * 256)) b3
  = b0 * 16777216 + b1 * 65536 + b2 * 256 + b3.
Proof.
  intros H1 H2 H3.
  change 16777216 with (2 ^ 24).
  rewrite (lor_shift_add b0 24 (b1 * 65536)) by (simpl; lia).
  replace (b0 * 2 ^ 24 + b1 * 65536) with ((b0 * 256 + b1) * 2 ^ 16) by lia.
  rewrite (lor_shift_add _ 16 (b2 * 256)) by (simpl; lia).
  replace ((b0 * 256 + b1) * 2 ^ 16 + b2 * 256)
    with (((b0 * 256 + b1) * 256 + b2) * 2 ^ 8) by lia.
  rewrite (lor_shift_add _ 8 b3) by (simpl; lia). lia.
Qed.

Lemma elementAt_in_range (buf : list Z) i :
  0 <= i < Z.of_nat (length buf) -> exists b, elementAt buf i = Some b.
Proof.
  intros Hi. unfold elementAt.
  destruct (Z.ltb_spec i 0); [lia|].
  apply lookup_lt_is_Some_2. lia.
Qed.

(** Dynamic truncation of a digest of at least 19 bytes: the four bytes
    read are inside the digest and the code is their big-endian value
    without its top bit. *)
Lemma truncation_spec digest :
  Forall isByte digest -> (19 <= length digest)%nat ->
  exists last b0 b1 b2 b3,
    let offset := truncationOffset digest in
    elementAt digest (Z.of_nat (length digest) - 1) = Some last
    /\ offset = last mod 16
    /\ offset + 3 < Z.of_nat (length digest)
    /\ elementAt digest offset = Some b0
    /\ elementAt digest (offset + 1) = Some b1
    /\ elementAt digest (offset + 2) = Some b2
    /\ elementAt digest (offset + 3) = Some b3
    /\ truncatedCode digest
       = (b0 mod 128) * 2 ^ 24 + b1 * 2 ^ 16 + b2 * 2 ^ 8 + b3.
Proof.
  intros Hbytes Hlen.
  assert (forall i b, elementAt digest i = Some b -> 0 <= b < 256) as Hbyte.
  { unfold elementAt. intros i b. destruct (i <? 0); [discriminate|].
    intros Hb. rewrite Forall_lookup in Hbytes. exact (Hbytes _ _ Hb). }
  pose proof (truncationOffset_range digest) as Hoff.
  unfold truncatedCode. unfold truncationOffset in *.
  destruct (elementAt_in_range digest (Z.of_nat (length digest) - 1))
    as [last Hlast]; [lia|].
  rewrite Hlast in *. simpl int32OfMaybe in *.
  change 15 with (Z.ones 4) in *. rewrite band_ones in * by lia.
  change (2 ^ 4) with 16 in *.
  set (offset := last mod 16) in *.
  destruct (elementAt_in_range digest offset) as [b0 Hb0]; [lia|].
  destruct (elementAt_in_range digest (offset + 1)) as [b1 Hb1]; [lia|].
  destruct (elementAt_in_range digest (offset + 2)) as [b2 Hb2]; [lia|].
  destruct (elementAt_in_range digest (offset + 3)) as [b3 Hb3]; [lia|].
  exists last, b0, b1, b2, b3. simpl.
  rewrite Hb0, Hb1, Hb2, Hb3. simpl int32OfMaybe.
  pose proof (Hbyte _ _ Hb1). pose proof (Hbyte _ _ Hb2).
  pose proof (Hbyte _ _ Hb3).
  change 127 with (Z.ones 7). change 255 with (Z.ones 8).
  rewrite !band_ones by lia. change (2 ^ 7) with 128. change (2 ^ 8) with 256.
  rewrite (Z.mod_small b1), (Z.mod_small b2), (Z.mod_small b3) by lia.
  pose proof (Z.mod_pos_bound b0 128 ltac:(lia)).
  rewrite !shl_small by (simpl; lia).
  change (2 ^ 24) with 16777216. change (2 ^ 16) with 65536.
  change (2 ^ 8) with 256.
  destruct (bor_small (b0 mod 128 * 16777216) (b1 * 65536) 31) as [-> R1];
    [lia | simpl; lia | simpl; lia |].
  destruct (bor_small (Z.lor (b0 mod 128 * 16777216) (b1 * 65536))
              (b2 * 256) 31) as [-> R2]; [lia | exact R1 | simpl; lia |].
  destruct (bor_small
              (Z.lor (Z.lor (b0 mod 128 * 16777216) (b1 * 65536)) (b2 * 256))
              b3 31) as [-> _]; [lia | exact R2 | simpl; lia |].
  rewrite lor_four_bytes by lia.
  repeat split; try reflexivity; lia.
Qed.

End HotpFacts.

(** ** Timing-safe comparison *)

Section CompareFacts.
Import Spec TOTP.

Lemma bxor_small x y :
  0 <= x < 2 ^ 16 -> 0 <= y < 2 ^ 16 ->
  bxor x y = Z.lxor x y /\ 0 <= Z.lxor x y < 2 ^ 16.
Proof.
  intros Hx Hy. unfold bxor. rewrite !toInt32_small by lia.
  split; [reflexivity|].
  assert (0 <= Z.lxor x y) by (apply Z.lxor_nonneg; lia).
  split; [assumption|].
  destruct (Z.eq_dec (Z.lxor x y) 0) as [-> | Hnz]; [lia|].
  apply Z.log2_lt_pow2; [lia|].
  eapply Z.le_lt_trans; [apply Z.log2_lxor; lia|].
  destruct (Z.eq_dec x 0) as [-> | Hx0];
    destruct (Z.eq_dec y 0) as [-> | Hy0];
    try (rewrite Z.lxor_0_l in Hnz; contradiction);
    change (Z.log2 0) with 0.
  - rewrite Z.max_r by apply Z.log2_nonneg. apply Z.log2_lt_pow2; lia.
  - rewrite Z.max_l by apply Z.log2_nonneg. apply Z.log2_lt_pow2; lia.
  - apply Z.max_lub_lt; apply Z.log2_lt_pow2; lia.
Qed.

(** The loop computes the OR of the XORs, from [acc] on. *)
Lemma compareLoop_spec a' : forall b' pa pb acc,
  length pa = length pb -> length a' = length b' ->
  Forall isCodeUnit a' -> Forall isCodeUnit b' -> 0 <= acc < 2 ^ 16 ->
  compareLoop (pa ++ a') (pb ++ b') (length pa) (length a') acc
  = fold_left Z.lor (zip_with Z.lxor a' b') acc.
Proof.
  induction a' as [|x a' IH]; intros b' pa pb acc Hp Hlen Ha Hb Hacc.
  - destruct b'; [reflexivity | discriminate].
  - destruct b' as [|y b']; [discriminate|].
    inversion Ha as [|? ? Hx Ha']; inversion Hb as [|? ? Hy Hb']; subst.
    unfold isCodeUnit in Hx, Hy. change 65536 with (2 ^ 16) in Hx, Hy.
    simpl length. simpl compareLoop. unfold charCodeAt.
    rewrite list_lookup_middle by reflexivity.
    rewrite list_lookup_middle by exact Hp.
    simpl int32OfMaybe.
    destruct (bxor_small x y Hx Hy) as [-> Hxor].
    destruct (bor_small acc (Z.lxor x y) 16) as [-> Hor]; [lia | lia | lia |].
    rewrite (cons_middle x pa a'), (cons_middle y pb b'), !app_assoc.
    replace (S (length pa)) with (length (pa ++ [x]))
      by (rewrite length_app; simpl; lia).
    rewrite IH;
      [reflexivity | rewrite !length_app; simpl; lia
       | simpl in Hlen; lia | assumption | assumption | exact Hor].
Qed.

Lemma orXor_zero a : forall b acc,
  length a = length b ->
  fold_left Z.lor (zip_with Z.lxor a b) acc = 0 <-> acc = 0 /\ a = b.
Proof.
  induction a as [|x a IH]; intros b acc Hlen.
  - destruct b; [|discriminate]. simpl. intuition.
  - destruct b as [|y b]; [discriminate|]. simpl.
    rewrite IH by (simpl in Hlen; lia). rewrite Z.lor_eq_0_iff. split.
    + intros [[-> Hxy] ->]. apply Z.lxor_eq in Hxy. subst. split; reflexivity.
    + intros [-> Heq]. inversion Heq; subst.
      rewrite Z.lxor_nilpotent. repeat split; reflexivity.
Qed.

Lemma constantTimeCompare_orXor a b :
  Forall isCodeUnit a -> Forall isCodeUnit b -> length a = length b ->
  constantTimeCompare a b = (orXor a b =? 0).
Proof.
  intros Ha Hb Hlen. unfold constantTimeCompare, orXor.
  rewrite Hlen, Nat.eqb_refl. simpl negb. cbv iota.
  rewrite <- Hlen.
  rewrite <- (compareLoop_spec a b [] [] 0 eq_refl Hlen Ha Hb ltac:(lia)).
  reflexivity.
Qed.

Lemma constantTimeCompare_unequal_length a b :
  length a <> length b -> constantTimeCompare a b = false.
Proof.
  intros Hlen. unfold constantTimeCompare.
  destruct (Nat.eqb_spec (length a) (length b)); [contradiction|reflexivity].
Qed.

Lemma constantTimeCompare_eq a b :
  Forall isCodeUnit a -> Forall isCodeUnit b ->
  constantTimeCompare a b = true <-> a = b.
Proof.
  intros Ha Hb.
  destruct (Nat.eq_dec (length a) (length b)) as [Hlen | Hlen].
  - rewrite constantTimeCompare_orXor by assumption.
    rewrite Z.eqb_eq. unfold orXor. rewrite orXor_zero by exact Hlen.
    intuition.
  - rewrite constantTimeCompare_unequal_length by exact Hlen.
    split; [discriminate|]. intros ->. contradiction.
Qed.

(** A string compares equal to itself, whatever its code units. *)
Lemma compareLoop_self a : forall i remaining,
  compareLoop a a i remaining 0 = 0.
Proof.
  intros i remaining. revert i.
  induction remaining as [|r IH]; intros i; [reflexivity|].
  simpl. unfold bxor, bor. rewrite Z.lxor_nilpotent. simpl. apply IH.
Qed.

Lemma constantTimeCompare_refl a : constantTimeCompare a a = true.
Proof.
  unfold constantTimeCompare. rewrite Nat.eqb_refl. simpl.
  rewrite compareLoop_self. reflexivity.
Qed.

End CompareFacts.

(** ** Verification over a window *)

Section VerifyFacts.
Import Spec Base32 TOTP.
Context {H : Host}.

Lemma generateTOTP_returns_iff secret timestamp step digits algorithm :
  returns (generateTOTP secret timestamp step digits algorithm) <->
  exists key,
    base32Decode secret = Ok key /\ step <> 0
    /\ returns (createHmac (algoMap algorithm) key).
Proof.
  unfold generateTOTP, generateHOTP, counterOf, returns.
  destruct (base32Decode secret) as [key | e]; simpl.
  - destruct (Z.eqb_spec step 0) as [-> | Hstep]; simpl.
    + split; [intros [? ?]; discriminate | intros (? & _ & ? & _); lia].
    + destruct (createHmac (algoMap algorithm) key) as [hmac | e] eqn:Hc;
        simpl.
      * split; [intros _; exists key; rewrite Hc; eauto | eauto].
      * split; [intros [? ?]; discriminate|].
        intros (k & Hk & _ & [? Hh]). inversion Hk; subst.
        rewrite Hc in Hh. discriminate.
  - split; [intros [? ?]; discriminate | intros (? & ? & _); discriminate].
Qed.

(** Whether a token is produced does not depend on the timestamp. *)
Lemma generateTOTP_returns_any secret t1 t2 step digits algorithm :
  returns (generateTOTP secret t1 step digits algorithm) ->
  returns (generateTOTP secret t2 step digits algorithm).
Proof. rewrite !generateTOTP_returns_iff. trivial. Qed.

Lemma verifyLoop_finds secret token timestamp window step digits algorithm
    (i0 : Z) :
  generateTOTP secret (timestamp + i0 * step) step digits algorithm
    = Ok token ->
  i0 <= window ->
  forall remaining i,
    i <= i0 -> i0 - i < Z.of_nat remaining ->
    verifyLoop remaining i secret token timestamp window step digits
      algorithm = Ok true.
Proof.
  intros Htoken Hwin. induction remaining as [|r IH]; intros i Hi Hrem; [lia|].
  simpl. destruct (Z.leb_spec i window); [|lia].
  destruct (generateTOTP_returns_any secret (timestamp + i0 * step)
              (timestamp + i * step) step digits algorithm) as [E HE];
    [eexists; exact Htoken|].
  rewrite HE. simpl.
  destruct (constantTimeCompare token E) eqn:Hcmp; [reflexivity|].
  apply IH; [|lia].
  destruct (Z.eq_dec i i0) as [-> | Hne]; [|lia].
  rewrite Htoken in HE. inversion HE; subst.
  rewrite constantTimeCompare_refl in Hcmp. discriminate.
Qed.

End VerifyFacts.

(** ** The public API *)

Section IndexFacts.
Import Spec TOTP Index.

Lemma filter_idempotent {A} (f : A -> bool) l :
  List.filter f (List.filter f l) = List.filter f l.
Proof.
  induction l as [|x l IH]; [reflexivity|]. simpl.
  destruct (f x) eqn:Hx; simpl; [rewrite Hx, IH|]; done.
Qed.

Lemma removeWhitespaceAndHyphens_idempotent t :
  removeWhitespaceAndHyphens (removeWhitespaceAndHyphens t)
  = removeWhitespaceAndHyphens t.
Proof. apply filter_idempotent. Qed.

Lemma removeWhitespaceAndHyphens_clean t :
  Forall (fun c => isWhitespace c = false /\ c <> 45)
    (removeWhitespaceAndHyphens t).
Proof.
  unfold removeWhitespaceAndHyphens. induction t as [|c t IH]; simpl.
  - constructor.
  - destruct (isWhitespace c) eqn:Hw; simpl; [exact IH|].
    destruct (Z.eqb_spec c 45); simpl; [exact IH|].
    constructor; [split; assumption | exact IH].
Qed.

Lemma isEmpty_false (s : jsstring) : s <> [] -> isEmpty s = false.
Proof. destruct s; [contradiction | reflexivity]. Qed.

Lemma verifyParameters_secret now (secret t : jsstring) :
  t <> [] ->
  verifyParameters now (VerifyWithSecret secret (Some t))
  = Ok (secret, t, 1, 30, 6%nat, str "SHA-1", now).
Proof. destruct t; [contradiction | reflexivity]. Qed.

End IndexFacts.

(** ** The concrete host meets the assumptions *)

Section NodeFacts.
Import Spec.

Lemma be32_shape w : length (Node.be32 w) = 4%nat /\ Forall isByte (Node.be32 w).
Proof.
  split; [reflexivity|]. unfold Node.be32, isByte.
  repeat constructor; apply Z.mod_pos_bound; reflexivity.
Qed.

Lemma be64_shape w : length (Node.be64 w) = 8%nat /\ Forall isByte (Node.be64 w).
Proof.
  unfold Node.be64. split.
  - rewrite length_app, !(proj1 (be32_shape _)). reflexivity.
  - apply Forall_app. split; apply be32_shape.
Qed.

Lemma sha1_shape m : length (Node.sha1 m) = 20%nat /\ Forall isByte (Node.sha1 m).
Proof.
  unfold Node.sha1. generalize (fold_left Node.sha1Block (Node.blocksOf 64 8 4 m)).
  intros f. destruct (f _) as [[[[h0 h1] h2] h3] h4].
  split; [reflexivity|]. repeat (apply Forall_app; split); apply be32_shape.
Qed.

Lemma sha256_shape m :
  length (Node.sha256 m) = 32%nat /\ Forall isByte (Node.sha256 m).
Proof.
  unfold Node.sha256.
  generalize (fold_left (Node.sha2Block Node.sha256Parameters)
                (Node.blocksOf 64 8 4 m)).
  intros f. destruct (f _) as [[[[[[[h0 h1] h2] h3] h4] h5] h6] h7].
  split; [reflexivity|]. repeat (apply Forall_app; split); apply be32_shape.
Qed.

Lemma sha512_shape m :
  length (Node.sha512 m) = 64%nat /\ Forall isByte (Node.sha512 m).
Proof.
  unfold Node.sha512.
  generalize (fold_left (Node.sha2Block Node.sha512Parameters)
                (Node.blocksOf 128 16 8 m)).
  intros f. destruct (f _) as [[[[[[[h0 h1] h2] h3] h4] h5] h6] h7].
  split.
  - rewrite !length_app, !(proj1 (be64_shape _)). reflexivity.
  - repeat first [apply be64_shape | apply Forall_app; split].
Qed.

Lemma node_upperCase : upperCaseOnAscii Node.host.
Proof. intros s _. reflexivity. Qed.

Lemma node_rejects : hmacRejectsNonString Node.host.
Proof. intros key. eexists. reflexivity. Qed.

Lemma node_accepts : hmacAcceptsDigestNames Node.host.
Proof.
  intros name key [n Hn]. unfold digestLength in Hn.
  simpl. unfold Node.createHmac, returns.
  repeat case_decide; try discriminate; eexists; reflexivity.
Qed.

Lemma node_digestShape : hmacDigestShape Node.host.
Proof.
  intros name key hmac message n Hcreate Hn.
  simpl in Hcreate. unfold Node.createHmac in Hcreate.
  unfold digestLength in Hn.
  repeat case_decide; try discriminate;
    inversion Hcreate; inversion Hn; subst; unfold Node.hmac.
  - apply sha1_shape.
  - apply sha256_shape.
  - apply sha512_shape.
Qed.

End NodeFacts.

(** * Test vectors

    The hash functions and HMAC of the concrete host on the published
    vectors (FIPS 180-4 "abc"; RFC 2202 and RFC 4231, test case 2), the
    codec on an RFC 4648 vector, and the behaviours at the edges of the
    claims above. *)

Section TestVectors.
Import Spec Base32 TOTP Index.

Example sha1_abc :
  Node.sha1 (str "abc")
  =
    [169; 153; 62; 54; 71; 6; 129; 106; 186; 62; 37; 113; 120; 80; 194;
     108; 156; 208; 216; 157].
Proof. vm_compute. reflexivity. Qed.

Example sha256_abc :
  Node.sha256 (str "abc")
  =
    [186; 120; 22; 191; 143; 1; 207; 234; 65; 65; 64; 222; 93; 174; 34; 35;
     176; 3; 97; 163; 150; 23; 122; 156; 180; 16; 255; 97; 242; 0; 21; 173].
Proof. vm_compute. reflexivity. Qed.

Example sha512_abc :
  Node.sha512 (str "abc")
  =
    [221; 175; 53; 161; 147; 97; 122; 186; 204; 65; 115; 73; 174; 32; 65;
     49; 18; 230; 250; 78; 137; 169; 126; 162; 10; 158; 238; 230; 75; 85;
     211; 154; 33; 146; 153; 42; 39; 79; 193; 168; 54; 186; 60; 35; 163;
     254; 235; 189; 69; 77; 68; 35; 100; 60; 232; 14; 42; 154; 201; 79;
     165; 76; 164; 159].
Proof. vm_compute. reflexivity. Qed.

Example hmac_sha1_jefe :
  Node.hmac Node.sha1 64 (str "Jefe") (str "what do ya want for nothing?")
  =
    [239; 252; 223; 106; 229; 235; 47; 162; 210; 116; 22; 213; 241; 132;
     223; 156; 37; 154; 124; 121].
Proof. vm_compute. reflexivity. Qed.

Example hmac_sha256_jefe :
  Node.hmac Node.sha256 64 (str "Jefe") (str "what do ya want for nothing?")
  =
    [91; 220; 193; 70; 191; 96; 117; 78; 106; 4; 36; 38; 8; 149; 117; 199;
     90; 0; 63; 8; 157; 39; 57; 131; 157; 236; 88; 185; 100; 236; 56; 67].
Proof. vm_compute. reflexivity. Qed.

Example hmac_sha512_jefe :
  Node.hmac Node.sha512 128 (str "Jefe") (str "what do ya want for nothing?")
  =
    [22; 75; 122; 123; 252; 248; 25; 226; 227; 149; 251; 231; 59; 86; 224;
     163; 135; 189; 100; 34; 46; 131; 31; 214; 16; 39; 12; 215; 234; 37; 5;
     84; 151; 88; 191; 117; 192; 90; 153; 74; 109; 3; 79; 101; 248; 240;
     230; 253; 202; 234; 177; 163; 77; 74; 107; 75; 99; 110; 7; 10; 56;
     188; 231; 55].
Proof. vm_compute. reflexivity. Qed.

Example base32_foobar :
  base32Encode (str "foobar") = str "MZXW6YTBOI"
  /\ base32Decode (H := Node.host) (str "mzxw 6ytb oi") = Ok (str "foobar").
Proof. split; vm_compute; reflexivity. Qed.

(** Trailing bits that do not fill a byte are dropped, and a character
    outside the alphabet is an error. *)
Example base32_decode_edges :
  base32Decode (H := Node.host) (str "A") = Ok []
  /\ base32Decode (H := Node.host) (str "  ") = Ok []
  /\ base32Decode (H := Node.host) (str "MZ=") = Throw (InvalidBase32Character 61).
Proof. repeat split. Qed.

(** With [digits = 0] the rendered code is ["0"], one character long. *)
Example renderCode_zero_digits : renderCode 123456 0 = str "0".
Proof. reflexivity. Qed.

(** The step of test group 8: a token of the previous step is accepted
    with window 1 and refused with window 0. *)
Example previous_step_window :
  generateTOTP (H := Node.host) rfcSecret (1609459215 - 31) 30 6 (str "SHA-1")
  = Ok (str "504334")
  /\ verifyTOTP (H := Node.host) rfcSecret (str "504334") 1609459215 1 30 6
       (str "SHA-1") = Ok true
  /\ verifyTOTP (H := Node.host) rfcSecret (str "504334") 1609459215 0 30 6
       (str "SHA-1") = Ok false.
Proof. split; [|split]; vm_compute; reflexivity. Qed.

End TestVectors.

(** * The claims *)

Import Spec Base32 TOTP Index.

(** A property of every element of a concrete list, element by element. *)
Ltac each_element tac :=
  repeat (constructor; [tac|]); constructor.

(** The code units of the string literals of the goal. *)
Ltac eval_str :=
  repeat match goal with
         | |- context [str ?s] =>
             let v := eval vm_compute in (str s) in change (str s) with v
         end.

(** C1. For the RFC 6238 secret [GEZDGNBVGY3TQOJQGEZDGNBVGY3TQOJQ], step 30,
    6 digits and SHA-1, [generateTOTP] returns ["287082"] at timestamp 59
    and ["081804"] at timestamp 1111111109 (on the concrete host, whose HMAC
    is RFC 2104 over FIPS 180-4 SHA-1). *)
Theorem rfc6238_vectors :
  generateTOTP (H := Node.host) rfcSecret 59 30 6 (str "SHA-1")
    = Ok (str "287082")
  /\ generateTOTP (H := Node.host) rfcSecret 1111111109 30 6 (str "SHA-1")
    = Ok (str "081804").
Proof. split; vm_compute; reflexivity. Qed.

(** C2. On a host whose [toUpperCase] upper-cases ASCII letters: for every
    byte sequence [b], [base32Decode (base32Encode b)] returns exactly [b]
    and [base32Encode b] has ceil(8 * length b / 5) characters; and for every
    valid Base32 text [t] with [n] characters left after white space is
    removed, [base32Decode t] returns floor(5 * n / 8) bytes. *)
Theorem base32_roundtrip_and_lengths (H : Host) :
  upperCaseOnAscii H ->
  (forall b : Buffer, Forall isByte b ->
     base32Decode (base32Encode b) = Ok b
     /\ Z.of_nat (length (base32Encode b))
        = (8 * Z.of_nat (length b) + 4) / 5)
  /\ (forall t : jsstring, validBase32Text t ->
        exists out,
          base32Decode t = Ok out
          /\ Z.of_nat (length out)
             = 5 * Z.of_nat (length (removeWhitespace t)) / 8).
Proof.
  intros Hupper. split.
  - intros b Hb. split.
    + apply base32Decode_encode; assumption.
    + apply base32Encode_length, Hb.
  - intros t Ht. apply base32Decode_valid; assumption.
Qed.

Lemma base32_roundtrip_and_lengths_witness :
  upperCaseOnAscii Node.host
  /\ Forall isByte [72; 101; 108; 108; 111; 33; 222; 173; 190; 239]
  /\ validBase32Text (str "jbsw y3dp EHPK 3PXP a")
  /\ base32Decode (H := Node.host)
       (base32Encode [72; 101; 108; 108; 111; 33; 222; 173; 190; 239])
     = Ok [72; 101; 108; 108; 111; 33; 222; 173; 190; 239]
  /\ (exists out,
        base32Decode (H := Node.host) (str "jbsw y3dp EHPK 3PXP a") = Ok out
        /\ Z.of_nat (length out) = 5 * 17 / 8).
Proof.
  assert (Forall isByte [72; 101; 108; 108; 111; 33; 222; 173; 190; 239])
    as Hb by (each_element ltac:(unfold isByte; lia)).
  assert (validBase32Text (str "jbsw y3dp EHPK 3PXP a")) as Ht.
  { unfold validBase32Text, isBase32Char. eval_str.
    each_element ltac:(first [left; reflexivity | right; lia]). }
  destruct (base32_roundtrip_and_lengths Node.host node_upperCase)
    as [Hround Hvalid].
  split; [exact node_upperCase|]. split; [exact Hb|]. split; [exact Ht|].
  split; [exact (proj1 (Hround _ Hb)) | exact (Hvalid _ Ht)].
Defined.

(** C3. On a host whose [createHmac] accepts the three digest names: for
    every secret, counter, supported algorithm and [digits >= 1],
    [generateHOTP] returns a string of exactly [digits] characters, all
    decimal digits: the truncated code modulo 10^digits, left-padded with
    zeros. *)
Theorem generateHOTP_digit_invariant (H : Host) :
  hmacAcceptsDigestNames H ->
  forall (secret : Buffer) (counter : Z) (digits : nat)
         (algorithm : jsstring),
    supportedAlgorithm algorithm -> (1 <= digits)%nat ->
    exists hmac token,
      createHmac (algoMap algorithm) secret = Ok hmac
      /\ generateHOTP secret counter digits algorithm = Ok token
      /\ length token = digits
      /\ Forall isDecimalDigit token
      /\ let code := truncatedCode (hmac (counterBufferOf counter)) in
         token
         = padStart (numberToString (code mod 10 ^ Z.of_nat digits)) digits 48
         /\ decimalValue token = code mod 10 ^ Z.of_nat digits.
Proof.
  intros Haccept secret counter digits algorithm Halg Hdigits.
  assert (exists name, algoMap algorithm = Some name
                       /\ is_Some (digestLength name)) as (name & Hname & Hlen).
  { destruct Halg as [-> | [-> | ->]]; eexists; split;
      try reflexivity; eexists; reflexivity. }
  destruct (Haccept name secret Hlen) as [hmac Hhmac].
  exists hmac, (renderCode (truncatedCode (hmac (counterBufferOf counter))) digits).
  pose proof (truncatedCode_range (hmac (counterBufferOf counter))) as Hcode.
  destruct (renderCode_spec _ digits (proj1 Hcode) Hdigits) as (Hl & Hd & Hv).
  unfold generateHOTP. rewrite Hname, Hhmac. simpl.
  repeat split; assumption.
Qed.

Lemma generateHOTP_digit_invariant_witness :
  hmacAcceptsDigestNames Node.host
  /\ supportedAlgorithm (str "SHA-256") /\ (1 <= 8)%nat
  /\ exists token,
       generateHOTP (H := Node.host) (str "12345678901234567890") 1 8
         (str "SHA-256") = Ok token
       /\ length token = 8%nat /\ Forall isDecimalDigit token.
Proof.
  assert (supportedAlgorithm (str "SHA-256")) as Halg
    by (right; left; reflexivity).
  assert (1 <= 8)%nat as Hdigits by lia.
  destruct (generateHOTP_digit_invariant Node.host node_accepts
              (str "12345678901234567890") 1 8 (str "SHA-256") Halg Hdigits)
    as (hmac & token & _ & Hgen & Hlen & Hdig & _).
  split; [exact node_accepts|]. split; [exact Halg|]. split; [exact Hdigits|].
  exists token. split; [exact Hgen|]. split; [exact Hlen | exact Hdig].
Defined.

(** C4. For every secret, timestamp [t], step, window [w >= 0] and integer
    [k] with [|k| <= w], the token that [generateTOTP] returns for
    [t - k * step] is accepted by [verifyTOTP] at [t] with window [w]; with
    [w = 0] the token generated at [t] itself verifies.  The token exists
    as soon as the secret decodes, the step is not 0 and [createHmac] takes
    the algorithm. *)
Theorem window_symmetry (H : Host) (secret : jsstring) (t step w k : Z)
    (digits : nat) (algorithm : jsstring) :
  0 <= w -> - w <= k <= w ->
  (forall token,
     generateTOTP secret (t - k * step) step digits algorithm = Ok token ->
     verifyTOTP secret token t w step digits algorithm = Ok true)
  /\ (forall token,
        generateTOTP secret t step digits algorithm = Ok token ->
        verifyTOTP secret token t 0 step digits algorithm = Ok true)
  /\ (forall key,
        base32Decode secret = Ok key -> step <> 0 ->
        returns (createHmac (algoMap algorithm) key) ->
        exists token,
          generateTOTP secret (t - k * step) step digits algorithm = Ok token
          /\ verifyTOTP secret token t w step digits algorithm = Ok true).
Proof.
  intros Hw Hk.
  assert (forall w' k' token, - w' <= k' <= w' ->
            generateTOTP secret (t - k' * step) step digits algorithm
              = Ok token ->
            verifyTOTP secret token t w' step digits algorithm = Ok true)
    as Hfind.
  { intros w' k' token Hk' Htoken. unfold verifyTOTP.
    apply verifyLoop_finds with (i0 := - k'); [|lia|lia|lia].
    rewrite <- Htoken. f_equal. lia. }
  split; [|split].
  - intros token. apply Hfind. exact Hk.
  - intros token Htoken. apply (Hfind 0 0); [lia|].
    rewrite <- Htoken. f_equal. lia.
  - intros key Hkey Hstep Hhmac.
    destruct (proj2 (generateTOTP_returns_iff secret (t - k * step) step
                       digits algorithm)) as [token Htoken]; [eauto|].
    exists token. split; [exact Htoken|]. apply (Hfind w k); assumption.
Qed.

Lemma window_symmetry_witness :
  0 <= 2 /\ - 2 <= -1 <= 2
  /\ generateTOTP (H := Node.host) rfcSecret (59 - (-1) * 30) 30 6
       (str "SHA-1") = Ok (str "359152")
  /\ verifyTOTP (H := Node.host) rfcSecret (str "359152") 59 2 30 6
       (str "SHA-1") = Ok true.
Proof.
  assert (0 <= 2) as Hw by lia.
  assert (- 2 <= -1 <= 2) as Hk by lia.
  assert (generateTOTP (H := Node.host) rfcSecret (59 - (-1) * 30) 30 6
            (str "SHA-1") = Ok (str "359152")) as Htoken
    by (vm_compute; reflexivity).
  split; [exact Hw|]. split; [exact Hk|]. split; [exact Htoken|].
  exact (proj1 (window_symmetry Node.host rfcSecret 59 30 2 (-1) 6
                  (str "SHA-1") Hw Hk) _ Htoken).
Defined.

(** C5. On a host whose digests have the length of their hash function
    (20, 32 or 64 bytes): for every digest of a supported algorithm, the
    offset [digest[last] & 0x0f] satisfies [offset + 3 < length digest], the
    four bytes read are inside the digest, and the code is their big-endian
    value without its top bit, a non-negative integer below 2^31. *)
Theorem truncation_in_bounds (H : Host) :
  hmacDigestShape H ->
  forall (secret : Buffer) (algorithm : jsstring) hmac (message : Buffer),
    supportedAlgorithm algorithm ->
    createHmac (algoMap algorithm) secret = Ok hmac ->
    let digest := hmac message in
    let offset := truncationOffset digest in
    (length digest = 20 \/ length digest = 32 \/ length digest = 64)%nat
    /\ 0 <= offset <= 15
    /\ offset + 3 < Z.of_nat (length digest)
    /\ (exists last b0 b1 b2 b3,
          elementAt digest (Z.of_nat (length digest) - 1) = Some last
          /\ offset = last mod 16
          /\ elementAt digest offset = Some b0
          /\ elementAt digest (offset + 1) = Some b1
          /\ elementAt digest (offset + 2) = Some b2
          /\ elementAt digest (offset + 3) = Some b3
          /\ truncatedCode digest
             = (b0 mod 128) * 2 ^ 24 + b1 * 2 ^ 16 + b2 * 2 ^ 8 + b3)
    /\ 0 <= truncatedCode digest < 2 ^ 31.
Proof.
  intros Hshape secret algorithm hmac message Halg Hcreate digest offset.
  assert (exists name n, algoMap algorithm = Some name
                         /\ digestLength name = Some n
                         /\ (n = 20 \/ n = 32 \/ n = 64)%nat)
    as (name & n & Hname & Hn & Hcases).
  { destruct Halg as [-> | [-> | ->]]; do 2 eexists;
      (split; [reflexivity|]); (split; [reflexivity|]); lia. }
  rewrite Hname in Hcreate.
  destruct (Hshape name secret hmac message n Hcreate Hn) as [Hlen Hbytes].
  fold digest in Hlen, Hbytes.
  destruct (truncation_spec digest Hbytes ltac:(lia))
    as (last & b0 & b1 & b2 & b3 & Hlast & Hoff & Hin & H0 & H1 & H2 & H3 & Hc).
  pose proof (truncationOffset_range digest) as Hrange.
  split; [lia|]. split; [subst offset; lia|]. split; [exact Hin|].
  split; [|apply truncatedCode_range].
  exists last, b0, b1, b2, b3. repeat split; assumption.
Qed.

Lemma truncation_in_bounds_witness :
  hmacDigestShape Node.host /\ supportedAlgorithm (str "SHA-512")
  /\ (exists hmac,
        createHmac (Host := Node.host) (algoMap (str "SHA-512"))
          (str "12345678901234567890") = Ok hmac
        /\ truncationOffset (hmac (counterBufferOf 1)) + 3
           < Z.of_nat (length (hmac (counterBufferOf 1)))
        /\ 0 <= truncatedCode (hmac (counterBufferOf 1)) < 2 ^ 31).
Proof.
  assert (supportedAlgorithm (str "SHA-512")) as Halg
    by (right; right; reflexivity).
  split; [exact node_digestShape|]. split; [exact Halg|].
  exists (Node.hmac Node.sha512 128 (str "12345678901234567890")).
  assert (createHmac (Host := Node.host) (algoMap (str "SHA-512"))
            (str "12345678901234567890")
          = Ok (Node.hmac Node.sha512 128 (str "12345678901234567890")))
    as Hcreate by reflexivity.
  destruct (truncation_in_bounds Node.host node_digestShape
              (str "12345678901234567890") (str "SHA-512") _
              (counterBufferOf 1) Halg Hcreate)
    as (_ & _ & Hin & _ & Hcode).
  split; [exact Hcreate|]. split; [exact Hin | exact Hcode].
Defined.

(** C6. For every counter [c], [generateHOTP] gives the HMAC exactly 8
    bytes: [c mod 2^64] in big-endian order, most significant byte first,
    whatever the magnitude of [c]. *)
Theorem counter_message_big_endian (H : Host) (secret : Buffer) (counter : Z)
    (digits : nat) (algorithm : jsstring) :
  length (counterBufferOf counter) = 8%nat
  /\ Forall isByte (counterBufferOf counter)
  /\ valueBE 8 (counterBufferOf counter) = counter mod 2 ^ 64
  /\ counterBufferOf counter = digitsBE 8 8 (counter mod 2 ^ 64)
  /\ counterBufferOf counter
     = [(counter / 2 ^ 56) mod 256; (counter / 2 ^ 48) mod 256;
        (counter / 2 ^ 40) mod 256; (counter / 2 ^ 32) mod 256;
        (counter / 2 ^ 24) mod 256; (counter / 2 ^ 16) mod 256;
        (counter / 2 ^ 8) mod 256; counter mod 256]
  /\ generateHOTP secret counter digits algorithm
     = (hmac ← createHmac (algoMap algorithm) secret;
        Ok (renderCode
              (truncatedCode (hmac (digitsBE 8 8 (counter mod 2 ^ 64))))
              digits)).
Proof.
  assert (counterBufferOf counter = digitsBE 8 8 (counter mod 2 ^ 64)) as Hmod.
  { rewrite counterBufferOf_digits.
    symmetry. exact (digitsBE_mod 8 8 counter ltac:(lia)). }
  split; [|split; [|split; [|split; [|split]]]].
  - rewrite counterBufferOf_digits. apply digitsBE_length.
  - rewrite counterBufferOf_digits.
    exact (digitsBE_range 8 ltac:(lia) 8 counter).
  - rewrite counterBufferOf_digits.
    exact (valueBE_digitsBE 8 ltac:(lia) 8 counter).
  - exact Hmod.
  - rewrite counterBufferOf_digits. simpl digitsBE.
    rewrite !Z.div_div by lia. reflexivity.
  - unfold generateHOTP. rewrite Hmod. reflexivity.
Qed.

(** C7. On a host whose [createHmac] throws when the algorithm it is given
    is not a string: for every algorithm selector outside SHA-1, SHA-256
    and SHA-512, [generateHOTP] throws; the error is the one [createHmac]
    throws, before any digest is computed, and no supported algorithm is
    used in its place. *)
Theorem unsupported_algorithm_rejected (H : Host) :
  hmacRejectsNonString H ->
  forall (secret : Buffer) (counter : Z) (digits : nat)
         (algorithm : jsstring),
    ~ supportedAlgorithm algorithm ->
    algoMap algorithm = None
    /\ exists e,
         createHmac None secret = Throw e
         /\ generateHOTP secret counter digits algorithm = Throw e.
Proof.
  intros Hreject secret counter digits algorithm Hnot.
  assert (algoMap algorithm = None) as Hmap.
  { unfold algoMap, supportedAlgorithm in *.
    repeat case_decide; try reflexivity; exfalso; apply Hnot; auto. }
  split; [exact Hmap|].
  destruct (Hreject secret) as [e He]. exists e. split; [exact He|].
  unfold generateHOTP. rewrite Hmap, He. reflexivity.
Qed.

Lemma unsupported_algorithm_rejected_witness :
  hmacRejectsNonString Node.host /\ ~ supportedAlgorithm (str "MD5")
  /\ throws (generateHOTP (H := Node.host) (str "12345678901234567890") 1 6
               (str "MD5")).
Proof.
  assert (~ supportedAlgorithm (str "MD5")) as Hnot
    by (intros [E | [E | E]]; discriminate E).
  split; [exact node_rejects|]. split; [exact Hnot|].
  destruct (unsupported_algorithm_rejected Node.host node_rejects
              (str "12345678901234567890") 1 6 (str "MD5") Hnot)
    as [_ [e [_ He]]].
  exists e. exact He.
Defined.

(** C8. For every pair of strings [a] and [b], [constantTimeCompare a b]
    is true if and only if [a = b]: strings of unequal lengths give false,
    and strings of equal lengths give true exactly when the OR of the XORs
    of their corresponding code units is zero. *)
Theorem constantTimeCompare_correct (a b : jsstring) :
  Forall isCodeUnit a -> Forall isCodeUnit b ->
  (constantTimeCompare a b = true <-> a = b)
  /\ (length a <> length b -> constantTimeCompare a b = false)
  /\ (length a = length b -> constantTimeCompare a b = (orXor a b =? 0)).
Proof.
  intros Ha Hb. split; [|split].
  - apply constantTimeCompare_eq; assumption.
  - apply constantTimeCompare_unequal_length.
  - apply constantTimeCompare_orXor; assumption.
Qed.

Lemma constantTimeCompare_correct_witness :
  Forall isCodeUnit (str "287082") /\ Forall isCodeUnit (str "287083")
  /\ (constantTimeCompare (str "287082") (str "287083") = true
      <-> str "287082" = str "287083")
  /\ constantTimeCompare (str "287082") (str "287083") = false.
Proof.
  assert (Forall isCodeUnit (str "287082")) as Ha
    by (eval_str; each_element ltac:(unfold isCodeUnit; lia)).
  assert (Forall isCodeUnit (str "287083")) as Hb
    by (eval_str; each_element ltac:(unfold isCodeUnit; lia)).
  split; [exact Ha|]. split; [exact Hb|].
  split; [|reflexivity].
  exact (proj1 (constantTimeCompare_correct _ _ Ha Hb)).
Defined.

(** C9, as stated, fails for a candidate made of hyphens or white space
    only: [verifyToken] accepts the non-empty candidate ["-"], normalizes it
    to the empty string and returns false, while on the normalized candidate
    it throws, in the string form of the call and in the options form. *)
Lemma verifyToken_hyphen_only_counterexample :
  rfcSecret <> [] /\ str "-" <> []
  /\ verifyToken (H := Node.host) 59
       (VerifyWithSecret rfcSecret (Some (str "-"))) = Ok false
  /\ verifyToken (H := Node.host) 59
       (VerifyWithSecret rfcSecret
          (Some (removeWhitespaceAndHyphens (str "-"))))
     = Throw (RequiredError "Token is required")
  /\ verifyToken (H := Node.host) 59
       (verifyOptions rfcSecret (str "-") None None None None None)
     = Ok false
  /\ verifyToken (H := Node.host) 59
       (verifyOptions rfcSecret (removeWhitespaceAndHyphens (str "-"))
          None None None None None)
     = Throw (RequiredError "Secret and token are required").
Proof.
  split; [discriminate|]. split; [discriminate|].
  split; [|split; [|split]]; vm_compute; reflexivity.
Qed.

(** C9, amended. For every call of [verifyToken] whose candidate token [t]
    is not empty once white space and hyphens are removed, [verifyToken]
    returns what it returns on the candidate with those characters removed;
    with a non-empty secret that is the result of [verifyTOTP] on the
    normalized candidate, which compares it with the expected tokens as
    [generateTOTP] returns them. *)
Theorem verifyToken_normalizes (H : Host) (now : Z) (arg : VerifyArgument)
    (t : jsstring) :
  candidateToken arg = Some t ->
  removeWhitespaceAndHyphens t <> [] ->
  verifyToken now arg
  = verifyToken now (withCandidate arg (removeWhitespaceAndHyphens t))
  /\ (forall secret token window step digits algorithm timestamp,
        verifyParameters now arg
        = Ok (secret, token, window, step, digits, algorithm, timestamp) ->
        token = t
        /\ (secret <> [] ->
            verifyToken now arg
            = verifyTOTP secret (removeWhitespaceAndHyphens t) timestamp
                window step digits algorithm)).
Proof.
  intros Hcand Hclean.
  assert (t <> []) as Ht by (intros ->; apply Hclean; reflexivity).
  pose proof (removeWhitespaceAndHyphens_idempotent t) as Hidem.
  destruct arg as [o | secret token]; simpl in Hcand.
  - inversion Hcand; subst. split.
    + unfold verifyToken. simpl.
      rewrite (isEmpty_false _ Ht), (isEmpty_false _ Hclean), Hidem.
      reflexivity.
    + intros secret token window step digits algorithm timestamp Hpar.
      simpl in Hpar. inversion Hpar; subst. split; [reflexivity|].
      intros Hsecret. unfold verifyToken. simpl.
      rewrite (isEmpty_false _ Hsecret), (isEmpty_false _ Ht). reflexivity.
  - subst token. split.
    + unfold verifyToken, withCandidate.
      rewrite !verifyParameters_secret by assumption. simpl.
      rewrite (isEmpty_false _ Ht), (isEmpty_false _ Hclean), Hidem.
      reflexivity.
    + intros secret' token window step digits algorithm timestamp Hpar.
      rewrite verifyParameters_secret in Hpar by assumption.
      inversion Hpar; subst. split; [reflexivity|].
      intros Hsecret. unfold verifyToken.
      rewrite verifyParameters_secret by assumption. simpl.
      rewrite (isEmpty_false _ Hsecret), (isEmpty_false _ Ht). reflexivity.
Qed.

Lemma verifyToken_normalizes_witness :
  candidateToken (VerifyWithSecret rfcSecret (Some (str "287 - 082")))
  = Some (str "287 - 082")
  /\ removeWhitespaceAndHyphens (str "287 - 082") <> []
  /\ verifyToken (H := Node.host) 59
       (VerifyWithSecret rfcSecret (Some (str "287 - 082")))
     = verifyToken (H := Node.host) 59
         (VerifyWithSecret rfcSecret (Some (str "287082")))
  /\ verifyToken (H := Node.host) 59
       (VerifyWithSecret rfcSecret (Some (str "287082"))) = Ok true.
Proof.
  assert (removeWhitespaceAndHyphens (str "287 - 082") <> []) as Hclean
    by discriminate.
  split; [reflexivity|]. split; [exact Hclean|].
  split; [|vm_compute; reflexivity].
  exact (proj1 (verifyToken_normalizes Node.host 59
                  (VerifyWithSecret rfcSecret (Some (str "287 - 082")))
                  (str "287 - 082") eq_refl Hclean)).
Defined.

(** C10. In the options forms of [generateToken] and [verifyToken], a
    timestamp, step or digits of 0 gives what omitting the field gives (the
    current time, 30 and 6 are used), whereas a window of 0 is passed on as
    it is; whatever the options, the step and the digits that reach
    [generateTOTP] are not 0 and the timestamp is 0 only when the current
    time is. *)
Theorem zero_options_are_defaults (H : Host) (now : Z)
    (secret token : jsstring) (window step timestamp : option Z)
    (digits : option nat) (algorithm : option jsstring) :
  generateToken now (tokenOptions secret step digits algorithm (Some 0))
  = generateToken now (tokenOptions secret step digits algorithm None)
  /\ generateToken now (tokenOptions secret (Some 0) digits algorithm timestamp)
     = generateToken now (tokenOptions secret None digits algorithm timestamp)
  /\ generateToken now
       (tokenOptions secret step (Some 0%nat) algorithm timestamp)
     = generateToken now (tokenOptions secret step None algorithm timestamp)
  /\ verifyToken now
       (verifyOptions secret token window step digits algorithm (Some 0))
     = verifyToken now
         (verifyOptions secret token window step digits algorithm None)
  /\ verifyToken now
       (verifyOptions secret token window (Some 0) digits algorithm timestamp)
     = verifyToken now
         (verifyOptions secret token window None digits algorithm timestamp)
  /\ verifyToken now
       (verifyOptions secret token window step (Some 0%nat) algorithm
          timestamp)
     = verifyToken now
         (verifyOptions secret token window step None algorithm timestamp)
  /\ (exists timestamp' step' digits' algorithm',
        tokenParameters now
          (tokenOptions secret step digits algorithm timestamp)
        = (secret, step', digits', algorithm', timestamp')
        /\ step' <> 0 /\ digits' <> 0%nat /\ (timestamp' = 0 -> now = 0)
        /\ (step = None \/ step = Some 0 -> step' = 30)
        /\ (digits = None \/ digits = Some 0%nat -> digits' = 6%nat)
        /\ (timestamp = None \/ timestamp = Some 0 -> timestamp' = now))
  /\ (exists timestamp' window' step' digits' algorithm',
        verifyParameters now
          (verifyOptions secret token window step digits algorithm timestamp)
        = Ok (secret, token, window', step', digits', algorithm', timestamp')
        /\ step' <> 0 /\ digits' <> 0%nat /\ (timestamp' = 0 -> now = 0)
        /\ (window = Some 0 -> window' = 0)
        /\ (window = None -> window' = 1))
  /\ (secret <> [] -> token <> [] ->
      verifyToken now
        (verifyOptions secret token (Some 0) step digits algorithm timestamp)
      = verifyTOTP secret (removeWhitespaceAndHyphens token)
          (numberOr timestamp now) 0 (numberOr step 30) (natOr digits 6)
          (stringOr algorithm (str "SHA-1"))).
Proof.
  assert (forall x d, d <> 0 -> numberOr x d <> 0) as Hnum.
  { intros [v|] d Hd; simpl; [|exact Hd].
    destruct (Z.eqb_spec v 0); assumption. }
  assert (forall x, numberOr x now = 0 -> now = 0) as Hts.
  { intros [v|]; simpl; [|trivial].
    destruct (Z.eqb_spec v 0); [trivial | contradiction]. }
  assert (forall x d, d <> 0%nat -> natOr x d <> 0%nat) as Hnat.
  { intros [[|n]|] d Hd; simpl; (exact Hd || discriminate). }
  repeat match goal with |- _ /\ _ => split end; try reflexivity.
  - do 4 eexists. split; [reflexivity|].
    repeat split; try (apply Hnum; lia); try (apply Hnat; lia);
      try apply Hts; intros [-> | ->]; reflexivity.
  - do 5 eexists. split; [reflexivity|].
    repeat split; try (apply Hnum; lia); try (apply Hnat; lia);
      try apply Hts; intros ->; reflexivity.
  - intros Hsecret Htoken. unfold verifyToken. simpl.
    rewrite (isEmpty_false _ Hsecret), (isEmpty_false _ Htoken). reflexivity.
Qed.

Lemma zero_options_are_defaults_witness :
  rfcSecret <> [] /\ str "287082" <> []
  /\ generateToken (H := Node.host) 59
       (tokenOptions rfcSecret (Some 0) (Some 0%nat) None (Some 0))
     = Ok (str "287082")
  /\ verifyToken (H := Node.host) 59
       (verifyOptions rfcSecret (str "287082") (Some 0) None None None
          (Some 89))
     = verifyTOTP (H := Node.host) rfcSecret
         (removeWhitespaceAndHyphens (str "287082")) 89 0 30 6 (str "SHA-1")
  /\ verifyToken (H := Node.host) 59
       (verifyOptions rfcSecret (str "287082") (Some 0) None None None
          (Some 89)) = Ok false
  /\ verifyToken (H := Node.host) 59
       (verifyOptions rfcSecret (str "287082") None None None None
          (Some 89)) = Ok true.
Proof.
  assert (rfcSecret <> []) as Hsecret by discriminate.
  assert (str "287082" <> []) as Htoken by discriminate.
  split; [exact Hsecret|]. split; [exact Htoken|].
  split; [vm_compute; reflexivity|].
  split; [|split; vm_compute; reflexivity].
  destruct (zero_options_are_defaults Node.host 59 rfcSecret (str "287082")
              None None (Some 89) None None)
    as (_ & _ & _ & _ & _ & _ & _ & _ & Hwindow).
  exact (Hwindow Hsecret Htoken).
Defined.


(** * Further properties of the codec *)

Section MoreDigits.
Variable k : Z.
Hypothesis k_pos : 0 < k.

Lemma valueFrom_acc l : forall acc,
  valueFrom k acc l = acc * 2 ^ (k * Z.of_nat (length l)) + valueBE k l.
Proof.
  unfold valueBE. induction l as [|d l IH]; intros acc.
  - simpl. rewrite Z.mul_0_r. simpl. lia.
  - change (valueFrom k acc (d :: l)) with (valueFrom k (acc * 2 ^ k + d) l).
    change (valueFrom k 0 (d :: l)) with (valueFrom k (0 * 2 ^ k + d) l).
    rewrite (IH (acc * 2 ^ k + d)), (IH (0 * 2 ^ k + d)).
    replace (k * Z.of_nat (length (d :: l)))
      with (k + k * Z.of_nat (length l)) by (simpl length; lia).
    rewrite Z.pow_add_r by lia. ring.
Qed.

Lemma valueBE_app l1 l2 :
  valueBE k (l1 ++ l2)
  = valueBE k l1 * 2 ^ (k * Z.of_nat (length l2)) + valueBE k l2.
Proof.
  unfold valueBE at 1. unfold valueFrom. rewrite fold_left_app.
  fold (valueFrom k 0 l1). fold (valueBE k l1).
  apply valueFrom_acc.
Qed.

(** The digits of a number that is a high part followed by [m] low
    digits. *)
Lemma digitsBE_app n m : forall X Y,
  0 <= Y < 2 ^ (k * Z.of_nat m) ->
  digitsBE k (n + m) (X * 2 ^ (k * Z.of_nat m) + Y)
  = digitsBE k n X ++ digitsBE k m Y.
Proof.
  induction m as [|m IH]; intros X Y HY.
  - rewrite Z.mul_0_r in *. change (2 ^ 0) with 1 in *.
    assert (Y = 0) as -> by lia.
    rewrite Nat.add_0_r, Z.mul_1_r, Z.add_0_r. simpl. symmetry. apply app_nil_r.
  - assert (0 < 2 ^ k) by (apply Z.pow_pos_nonneg; lia).
    assert (0 < 2 ^ (k * Z.of_nat m)) by (apply Z.pow_pos_nonneg; lia).
    replace (k * Z.of_nat (S m)) with (k * Z.of_nat m + k) in * by lia.
    rewrite Z.pow_add_r in * by lia.
    rewrite Nat.add_succ_r. simpl digitsBE.
    replace (X * (2 ^ (k * Z.of_nat m) * 2 ^ k) + Y)
      with (Y + (X * 2 ^ (k * Z.of_nat m)) * 2 ^ k) by ring.
    rewrite Z.div_add, Z.mod_add by lia.
    rewrite (Z.add_comm (Y / 2 ^ k)), IH.
    + rewrite app_assoc. reflexivity.
    + split; [apply Z.div_pos; lia|].
      apply Z.div_lt_upper_bound; lia.
Qed.

End MoreDigits.

Section MoreBase32.
Context (H : Host) (Hupper : upperCaseOnAscii H).

Lemma indexOf_outside c :
  ~ isUpperBase32 c -> indexOf BASE32_CHARS c = -1.
Proof.
  intros Hc. unfold indexOf, BASE32_CHARS, isUpperBase32 in *. eval_str.
  cbn [indexOfFrom Z.add Pos.add Pos.succ].
  repeat (match goal with
          | |- context [?a =? c] => destruct (Z.eqb_spec a c); [lia|]
          end).
  reflexivity.
Qed.

Lemma decodeLoop_invalid c rest ds : forall bits value index output,
  Forall (fun d => 0 <= d < 32) ds -> ~ isUpperBase32 c ->
  decodeLoop (map alphabetChar ds ++ c :: rest) bits value index output
  = Throw (InvalidBase32Character c).
Proof.
  induction ds as [|d ds IH]; intros bits value index output Hds Hc.
  - simpl. rewrite (indexOf_outside c Hc). reflexivity.
  - inversion Hds as [|? ? Hd Hds']; subst. simpl.
    rewrite alphabet_indexOf by lia.
    destruct (Z.eqb_spec d (-1)); [lia|].
    destruct (8 <=? bits + 5); apply IH; assumption.
Qed.

Lemma asciiUpper_reflects c : isUpperBase32 (asciiUpper c) -> isBase32Char c.
Proof.
  unfold isUpperBase32, isBase32Char, asciiUpper.
  destruct (Z.leb_spec 97 c), (Z.leb_spec c 122); simpl; lia.
Qed.

Lemma removeWhitespace_app s t :
  removeWhitespace (s ++ t) = removeWhitespace s ++ removeWhitespace t.
Proof. unfold removeWhitespace. apply List.filter_app. Qed.

Lemma removeWhitespace_ascii t :
  Forall isAscii t -> Forall isAscii (removeWhitespace t).
Proof.
  unfold removeWhitespace. induction 1 as [|c t Hc Ht IH]; simpl.
  - constructor.
  - destruct (isWhitespace c); simpl; [exact IH | constructor; assumption].
Qed.

Lemma valid_clean t :
  validBase32Text t -> Forall isBase32Char (removeWhitespace t).
Proof.
  unfold removeWhitespace. induction 1 as [|c t Hc Ht IH]; simpl.
  - constructor.
  - destruct (isWhitespace c) eqn:Hw; simpl; [exact IH|].
    constructor; [|exact IH]. destruct Hc as [Hc|Hc]; [discriminate|exact Hc].
Qed.

(** The 5-bit groups of a valid text. *)
Lemma valid_groups t :
  validBase32Text t ->
  exists ds,
    Forall (fun d => 0 <= d < 32) ds
    /\ map asciiUpper (removeWhitespace t) = map alphabetChar ds
    /\ length ds = length (removeWhitespace t).
Proof.
  intros Hvalid.
  assert (Forall isUpperBase32 (map asciiUpper (removeWhitespace t))) as Hup.
  { apply Forall_map. eapply Forall_impl; [exact (valid_clean t Hvalid)|].
    intros c Hc. apply asciiUpper_base32, Hc. }
  destruct (upper_as_encoded _ Hup) as [Htext Hds].
  eexists. split; [exact Hds|]. split; [exact Htext|].
  rewrite !length_map. reflexivity.
Qed.

(** On ASCII text the decoder sees the text without white space, in upper
    case. *)
Lemma base32Decode_cleaned t :
  Forall isAscii (removeWhitespace t) ->
  base32Decode t
  = ('(index, output) ←
       decodeLoop (map asciiUpper (removeWhitespace t)) 0 0 0%nat
         (replicate
            (Z.to_nat
               ((Z.of_nat (length (map asciiUpper (removeWhitespace t))) * 5
                 + 7) / 8)) 0);
     Ok (take index output)).
Proof.
  intros Hascii. unfold base32Decode.
  rewrite (Hupper _ Hascii). reflexivity.
Qed.

Lemma base32Decode_valid_groups t ds :
  Forall isAscii (removeWhitespace t) ->
  map asciiUpper (removeWhitespace t) = map alphabetChar ds ->
  Forall (fun d => 0 <= d < 32) ds ->
  base32Decode t = base32Decode (map alphabetChar ds).
Proof.
  intros Hascii Htext Hds.
  pose proof (encoded_upper ds Hds) as Hup.
  rewrite (base32Decode_cleaned t Hascii).
  rewrite base32Decode_cleaned
    by (rewrite (removeWhitespace_upper _ Hup); exact (upper_ascii _ Hup)).
  rewrite (removeWhitespace_upper _ Hup), (map_asciiUpper_upper _ Hup), Htext.
  reflexivity.
Qed.

Lemma valid_clean_ascii t :
  validBase32Text t -> Forall isAscii (removeWhitespace t).
Proof.
  intros Hvalid. eapply Forall_impl; [exact (valid_clean t Hvalid)|].
  unfold isBase32Char, isAscii. intros c Hc. lia.
Qed.

End MoreBase32.
